(** * twitch_scraper: a shallow embedding of the ingestion pipeline

    The development follows [twitch_scraper.py]: [GetStreamers.scrape] and
    [GetStreamers.history] (the HTTP client), [CompileData.database],
    [CompileData.format] and [CompileData.append] (the PostgreSQL sink) and
    [main].

    Modelling choices.
    - Domain.  The model covers API responses of the documented shape: the
      body is a JSON object whose [data] member is absent or, for the
      ranking, a list of objects and, for a channel, an object; the members
      of these objects are null, integers or strings ([scalar]).  On other
      bodies (a body that is no JSON object, [data] that is null or of
      another type, floating point or nested member values) the program
      raises in [response.json()], [.get], [sorted] or the item assignment,
      or goes on with values the model has no type for: such bodies are
      outside the model, and every theorem is a statement about responses of
      the documented shape.  A JSON object (and the Python dict decoded from
      it) is an association list in insertion order ([dict]), because the
      loops of the program iterate dicts in that order.
    - Strings are byte strings holding the UTF-8 encoding of a Python [str];
      comparing them bytewise is comparing the [str]s by code point.
      [str.lower] maps A..Z to a..z on a string of ASCII characters; on a
      string with other characters it applies the Unicode case mapping of
      the runtime, which is not modelled but taken from the world
      ([unicode_lower]).
    - The effects of the program (log records, prints, HTTP requests, sleeps,
      database calls) are recorded in a chronological [trace]; the functions
      live in a state-and-exception monad [M].
    - The remote API and the database engine are not part of the program: the
      API is an oracle from request URLs to responses; the server's reading
      of a quoted table name (PostgreSQL cuts identifiers to 63 bytes) is an
      oracle [identifier], and the engine's conversion of a Python tuple
      into a stored row is an oracle [engine] (a rejected row raises in
      [cursor.execute]).  All are fields of [world], so every theorem holds
      for all of them.  A psycopg2 connection runs one transaction from its
      first statement to the next [commit] or [rollback]. *)

From stdpp Require Import base strings list gmap pretty sorting.
From Stdlib Require Import ZArith Lia Ascii.

Open Scope Z_scope.

(** ** Python values *)

Inductive scalar : Type :=
| SNull                 (* None / JSON null *)
| SInt (z : Z)          (* int *)
| SStr (s : string).    (* str *)

Global Instance scalar_eq_dec : EqDecision scalar.
Proof. solve_decision. Defined.

Inductive exn : Type :=
| KeyError (key : string)
| TypeError
| AttributeError
| DatabaseError.

Inductive result (A : Type) : Type :=
| Ok (a : A)
| Raise (e : exn).
Arguments Ok {A} a.
Arguments Raise {A} e.

Global Instance result_ret : MRet result := λ A, Ok.
Global Instance result_bind : MBind result := λ A B f m,
  match m with
  | Ok a => f a
  | Raise e => Raise e
  end.
Global Instance result_fmap : FMap result := λ A B f m,
  match m with
  | Ok a => Ok (f a)
  | Raise e => Raise e
  end.

(** A Python dict: keys in insertion order, one entry per key. *)
Definition dict (K V : Type) : Type := list (K * V).

Section Dict.
Context {K V : Type} `{EqDecision K}.

(** [d.get(k)] as an option. *)
Fixpoint dict_get (d : dict K V) (k : K) : option V :=
  match d with
  | [] => None
  | (k', v) :: d' => if decide (k' = k) then Some v else dict_get d' k
  end.

(** [d[k] = v]: an existing key keeps its position, a new key goes last. *)
Fixpoint dict_set (d : dict K V) (k : K) (v : V) : dict K V :=
  match d with
  | [] => [(k, v)]
  | (k', v') :: d' =>
      if decide (k' = k) then (k', v) :: d' else (k', v') :: dict_set d' k v
  end.
End Dict.

(** A decoded JSON object with scalar members. *)
Abbreviation pydict := (dict string scalar).

(** [d[k]]: raises [KeyError] on a missing key. *)
Definition subscript (d : pydict) (k : string) : result scalar :=
  match dict_get d k with
  | Some v => Ok v
  | None => Raise (KeyError k)
  end.

(** [d.get(k)]: [None] on a missing key. *)
Definition get_or_none (d : pydict) (k : string) : scalar :=
  default SNull (dict_get d k).

(** [str(v)], as an f-string renders a value. *)
Definition py_str (v : scalar) : string :=
  match v with
  | SNull => "None"
  | SInt z => pretty z
  | SStr s => s
  end.

(** [str.lower] on ASCII characters: A..Z become a..z. *)
Definition lower_char (c : ascii) : ascii :=
  let n := nat_of_ascii c in
  if ((65 <=? n) && (n <=? 90))%nat then ascii_of_nat (n + 32) else c.

Fixpoint lower_ascii (s : string) : string :=
  match s with
  | EmptyString => EmptyString
  | String c s' => String (lower_char c) (lower_ascii s')
  end.

(** [s.isascii()]: every byte is below 128. *)
Definition is_ascii_char (c : ascii) : bool := (nat_of_ascii c <? 128)%nat.

Fixpoint is_ascii (s : string) : bool :=
  match s with
  | EmptyString => true
  | String c s' => is_ascii_char c && is_ascii s'
  end.

(** [a < b] as [sorted] evaluates it on two keys: integers compare by value,
    strings by code point, any other pair raises [TypeError]. *)
Definition py_lt (a b : scalar) : result bool :=
  match a, b with
  | SInt x, SInt y => Ok (bool_decide (x < y))
  | SStr x, SStr y => Ok (Stdlib.Strings.String.ltb x y)
  | _, _ => Raise TypeError
  end.

(** ** [sorted(data, key=..., reverse=True)]

    A stable sort into descending key order: among equal keys the input
    order is kept.  [insert_desc x l] puts [x], which precedes all of [l] in
    the input, in front of the first element whose key is not larger. *)
Section Sorted.
Context {A : Type} (key : A → scalar).

Fixpoint insert_desc (x : A) (l : list A) : result (list A) :=
  match l with
  | [] => Ok [x]
  | y :: l' =>
      smaller ← py_lt (key x) (key y);
      if (smaller : bool) then (cons y) <$> insert_desc x l'
      else Ok (x :: y :: l')
  end.

Fixpoint sorted_desc (l : list A) : result (list A) :=
  match l with
  | [] => Ok []
  | x :: l' => s ← sorted_desc l'; insert_desc x s
  end.
End Sorted.

(** A list comprehension whose body may raise. *)
Fixpoint comprehension {A B : Type} (f : A → result B) (l : list A)
  : result (list B) :=
  match l with
  | [] => Ok []
  | x :: l' => y ← f x; ys ← comprehension f l'; Ok (y :: ys)
  end.

(** ** The outside world *)

(** An HTTP response: [status_code], [text] and the [data] member of
    [response.json()], [None] when the body has no such member.  The type
    [A] of the member is the documented one (a list of objects for the
    ranking, an object for a channel); other bodies are outside the model,
    see above. *)
Record response (A : Type) : Type := {
  status_code : Z;
  text : string;
  json_data : option A;
}.
Arguments status_code {A} r.
Arguments text {A} r.
Arguments json_data {A} r.

(** The tuple [(date, average_viewers, stream_days)] passed to the INSERT. *)
Definition line : Type := scalar * scalar * scalar.

(** A stored row of a streamer table: [date TEXT PRIMARY KEY],
    [average_viewers INTEGER], [stream_days INTEGER] (nullable). *)
Definition row : Type := string * option Z * option Z.

Definition row_date (r : row) : string := r.1.1.

(** A table is the list of its rows; the catalog maps the identifiers of the
    server's tables to tables.  The tables of the catalog have the schema of
    the program's CREATE TABLE statement, and the program is the only client
    of the database during a run. *)
Abbreviation table := (list row).
Abbreviation catalog := (gmap string (list row)).

Record world : Type := {
  getenv : string → option string;              (* os.getenv, after load_dotenv() *)
  ranking_api : string → response (list pydict); (* GET /channels?... *)
  channel_api : string → response pydict;        (* GET /channels/<name>?... *)
  unicode_lower : string → string;              (* str.lower beyond ASCII *)
  identifier : string → string;                 (* the table a quoted name denotes *)
  engine : line → option row;                   (* the engine's reading of a tuple *)
}.

(** ** Effects *)

Inductive level : Type := DEBUG | INFO | WARNING | ERROR.

Definition level_no (lv : level) : Z :=
  match lv with DEBUG => 10 | INFO => 20 | WARNING => 30 | ERROR => 40 end.

Inductive statement : Type :=
| CreateTableIfNotExists (table_name : string)
| InsertOnConflictDoNothing (table_name : string) (values : line).

(** Values interpolated into a message. *)
Inductive pyarg : Type :=
| AStr (s : string)
| AInt (z : Z)
| AVal (v : scalar)
| AVals (l : list scalar)
| ALine (l : line)
| ATables (t : dict string (list line))
| AExn (e : exn).

Inductive event : Type :=
| Log (lv : level) (fmt : string) (args : list pyarg)
| Print (label : string) (value : pyarg)
| HttpGet (url : string)
| Sleep
| DbConnect
| DbExecute (stmt : statement)
| DbRollback
| DbCommit
| DbClose.

Record state : Type := {
  trace : list event;
  streamers : list scalar;                       (* GetStreamers.streamers *)
  history_data : dict scalar (list pydict);      (* GetStreamers.history_data *)
  committed : catalog;                           (* what a new connection sees *)
  session : option catalog;                      (* the open connection's transaction *)
}.

Definition M (A : Type) : Type := state → result A * state.

Global Instance M_ret : MRet M := λ A a st, (Ok a, st).
Global Instance M_bind : MBind M := λ A B f m st,
  match m st with
  | (Ok a, st') => f a st'
  | (Raise e, st') => (Raise e, st')
  end.

Definition lift {A : Type} (r : result A) : M A := λ st, (r, st).

Definition emit (e : event) : M unit := λ st,
  (Ok (),
   {| trace := trace st ++ [e]; streamers := streamers st;
      history_data := history_data st; committed := committed st;
      session := session st |}).

Definition set_streamers (l : list scalar) : M unit := λ st,
  (Ok (),
   {| trace := trace st; streamers := l; history_data := history_data st;
      committed := committed st; session := session st |}).

Definition set_history_data (h : dict scalar (list pydict)) : M unit := λ st,
  (Ok (),
   {| trace := trace st; streamers := streamers st; history_data := h;
      committed := committed st; session := session st |}).

Definition set_committed (c : catalog) : M unit := λ st,
  (Ok (),
   {| trace := trace st; streamers := streamers st;
      history_data := history_data st; committed := c;
      session := session st |}).

Definition set_session (s : option catalog) : M unit := λ st,
  (Ok (),
   {| trace := trace st; streamers := streamers st;
      history_data := history_data st; committed := committed st;
      session := s |}).

Definition gets {A : Type} (f : state → A) : M A := λ st, (Ok (f st), st).

(** [try: body except Exception as e: handler(e)] *)
Definition try_except (body : M unit) (handler : exn → M unit) : M unit :=
  λ st,
  match body st with
  | (Ok u, st') => (Ok u, st')
  | (Raise e, st') => handler e st'
  end.

(** [for x in l: body(x)] *)
Fixpoint for_each {A : Type} (l : list A) (body : A → M unit) : M unit :=
  match l with
  | [] => mret ()
  | x :: l' => body x;; for_each l' body
  end.

(** [logging.basicConfig(level=logging.INFO)]: records below INFO are dropped. *)
Definition logging (lv : level) (fmt : string) (args : list pyarg) : M unit :=
  if bool_decide (level_no INFO ≤ level_no lv) then emit (Log lv fmt args)
  else mret ().

Definition print (label : string) (value : pyarg) : M unit :=
  emit (Print label value).

Definition time_sleep : M unit := emit Sleep.

(** ** The database connection (psycopg2) *)

(** What one statement does to the transaction's view of the catalog;
    [None] when the engine raises.  The table names of the statement are the
    identifiers the server resolved the quoted names to (see [execute]).
    - [CREATE TABLE IF NOT EXISTS t (date TEXT, ..., PRIMARY KEY (date))]
      creates an empty table unless [t] exists.
    - [INSERT INTO t (...) VALUES (...) ON CONFLICT (date) DO NOTHING] raises
      when [t] does not exist or the engine rejects the tuple, does nothing
      when a row with the same [date] is stored, and stores the row
      otherwise. *)
Definition run_statement (eng : line → option row) (stmt : statement)
    (c : catalog) : option catalog :=
  match stmt with
  | CreateTableIfNotExists t =>
      match c !! t with
      | Some _ => Some c
      | None => Some (<[t := []]> c)
      end
  | InsertOnConflictDoNothing t values =>
      match c !! t with
      | None => None
      | Some rows =>
          match eng values with
          | None => None
          | Some r =>
              if existsb (λ r', bool_decide (row_date r' = row_date r)) rows
              then Some c
              else Some (<[t := rows ++ [r]]> c)
          end
      end
  end.

Section Program.
Context (w : world).

(** [psycopg2.connect(...)]; the transaction starts from the committed
    catalog. *)
Definition connect : M unit :=
  emit DbConnect;;
  c ← gets committed;
  set_session (Some c).

(** The statement as the server reads it: [sql.Identifier(name)] denotes
    the table [identifier w name]. *)
Definition resolve (stmt : statement) : statement :=
  match stmt with
  | CreateTableIfNotExists name => CreateTableIfNotExists (identifier w name)
  | InsertOnConflictDoNothing name values =>
      InsertOnConflictDoNothing (identifier w name) values
  end.

(** [c.execute(stmt)] *)
Definition execute (stmt : statement) : M unit :=
  emit (DbExecute stmt);;
  s ← gets session;
  match s with
  | None => lift (Raise DatabaseError)
  | Some c =>
      match run_statement (engine w) (resolve stmt) c with
      | Some c' => set_session (Some c')
      | None => lift (Raise DatabaseError)
      end
  end.

(** [conn.rollback()]: the transaction's changes are discarded. *)
Definition rollback : M unit :=
  emit DbRollback;;
  s ← gets session;
  match s with
  | None => mret ()
  | Some _ => c ← gets committed; set_session (Some c)
  end.

(** [conn.commit()]: the transaction's changes become durable. *)
Definition commit : M unit :=
  emit DbCommit;;
  s ← gets session;
  match s with
  | None => mret ()
  | Some c => set_committed c
  end.

(** [c.close(); conn.close()] *)
Definition close : M unit :=
  emit DbClose;;
  set_session None.

(** [s.lower()] *)
Definition lower (s : string) : string :=
  if is_ascii s then lower_ascii s else unicode_lower w s.

(** [v.lower()]: only [str] has the method. *)
Definition py_lower (v : scalar) : result string :=
  match v with
  | SStr s => Ok (lower s)
  | _ => Raise AttributeError
  end.

(** ** class GetStreamers *)

Definition base_url : string := "https://streamscharts.com/api/jazz".
Definition platform : string := "twitch".
Definition testing_mode : string := "&testing_mode=true".

Definition ranking_url : string :=
  base_url +:+ "/channels?platform=" +:+ platform +:+ "&time=7-days"
    +:+ testing_mode.

Definition history_url (streamer : scalar) (period : string) : string :=
  base_url +:+ "/channels/" +:+ py_str streamer +:+ "?platform=" +:+ platform
    +:+ "&time=" +:+ period +:+ testing_mode.

(** [GetStreamers.__init__] *)
Definition init_streamers : M unit :=
  set_streamers [];;
  set_history_data [].

(** The sort key of [scrape]: [lambda s: s.get('average_viewers', 0)]. *)
Definition viewers_key (s : pydict) : scalar :=
  default (SInt 0) (dict_get s "average_viewers").

Definition scrape : M (list scalar) :=
  logging INFO
    "Requesting Twitch streamers (limit: 20, sorted by average_viewers)..." [];;
  emit (HttpGet ranking_url);;
  let response := ranking_api w ranking_url in
  logging DEBUG "Scrape response status: {}" [AInt (status_code response)];;
  (if bool_decide (status_code response = 200) then
     let data := default [] (json_data response) in
     sorted_data ← lift (sorted_desc viewers_key data);
     let top_20 := take 20 sorted_data in
     names ← lift (comprehension (λ s, subscript s "channel_name") top_20);
     set_streamers names;;
     logging INFO "Found {} streamers (top 20 by average_viewers)."
       [AInt (Z.of_nat (length names))];;
     logging DEBUG "Streamer list: {}" [AVals names]
   else
     logging ERROR "Failed to fetch streamers: {} {}"
       [AInt (status_code response); AStr (text response)];;
     set_streamers []);;
  gets streamers.

Definition time_periods : list string := ["7-days"; "last-month"; "last-year"].

(** [self.history_data[streamer].append(data)] *)
Definition history_append (streamer : scalar) (data : pydict) : M unit :=
  h ← gets history_data;
  match dict_get h streamer with
  | Some records => set_history_data (dict_set h streamer (records ++ [data]))
  | None => lift (Raise (KeyError (py_str streamer)))
  end.

(** The body of the inner loop of [history]: one request.  [if data:] is
    false for the empty object; on an object, [data['date'] = period] sets
    the member (on data that is no object it would raise [TypeError]). *)
Definition history_request (streamer : scalar) (period : string) : M unit :=
  logging DEBUG "Requesting history for streamer: {} at period: {}"
    [AVal streamer; AStr period];;
  emit (HttpGet (history_url streamer period));;
  let response := channel_api w (history_url streamer period) in
  logging DEBUG "History response status for {} ({}): {}"
    [AVal streamer; AStr period; AInt (status_code response)];;
  (if bool_decide (status_code response = 200) then
     let data := default [] (json_data response) in
     match data with
     | [] => mret ()
     | _ :: _ =>
         history_append streamer (dict_set data "date" (SStr period));;
         logging INFO "History record for {} ({}) added."
           [AVal streamer; AStr period]
     end
   else
     logging ERROR "Failed to fetch history for {} ({}): {} {}"
       [AVal streamer; AStr period; AInt (status_code response);
        AStr (text response)]);;
  time_sleep.

Definition history : M (dict scalar (list pydict)) :=
  logging INFO "Fetching history for each streamer at multiple time points..." [];;
  ss ← gets streamers;
  for_each ss (λ streamer,
    h ← gets history_data;
    set_history_data (dict_set h streamer []);;
    for_each time_periods (history_request streamer));;
  gets history_data.

(** ** class CompileData *)

Definition database (streamer_tables : list scalar) : M unit :=
  logging INFO "Checking/creating PostgreSQL tables for each streamer..." [];;
  connect;;
  for_each streamer_tables (λ streamer,
    lowered ← lift (py_lower streamer);
    let table_name := "streamer_" +:+ lowered in
    execute (CreateTableIfNotExists table_name));;
  commit;;
  close;;
  logging INFO "All streamer tables ready." [].

(** The inner loop of [format]: one tuple per record. *)
Definition format_records (records : list pydict) : list line :=
  map (λ record,
    let avg_viewers := get_or_none record "average_viewers" in
    let stream_days := get_or_none record "stream_days" in
    let date := get_or_none record "date" in
    (date, avg_viewers, stream_days)) records.

(** The outer loop of [format], with [streamer_lines] as accumulator. *)
Fixpoint format_items (items : dict scalar (list pydict))
    (streamer_lines : dict string (list line))
  : result (dict string (list line)) :=
  match items with
  | [] => Ok streamer_lines
  | (streamer, records) :: items' =>
      lowered ← py_lower streamer;
      let table_name := "streamer_" +:+ lowered in
      let lines := format_records records in
      format_items items' (dict_set streamer_lines table_name lines)
  end.

Definition format (history_data : dict scalar (list pydict))
  : M (dict string (list line)) :=
  logging INFO "Formatting history data for per-streamer table insertion..." [];;
  streamer_lines ← lift (format_items history_data []);
  logging DEBUG "Formatted data for {} streamer tables."
    [AInt (Z.of_nat (length streamer_lines))];;
  mret streamer_lines.

(** The [try] statement of [append]: one INSERT, and on any exception a
    log record and [conn.rollback()]. *)
Definition append_line (table_name : string) (l : line) : M unit :=
  try_except
    (execute (InsertOnConflictDoNothing table_name l))
    (λ e,
      logging ERROR "Error inserting line {} into {}: {}"
        [ALine l; AStr table_name; AExn e];;
      rollback).

Definition append (streamer_lines : dict string (list line)) : M unit :=
  logging INFO "Appending data to each streamer's table in PostgreSQL..." [];;
  connect;;
  for_each streamer_lines (λ '(table_name, lines),
    for_each lines (append_line table_name));;
  commit;;
  close;;
  logging INFO "All data appended to streamer tables." [].

(** ** main *)

(** [not s] for the result of [os.getenv]: [None] and [''] are falsy. *)
Definition falsy (s : option string) : bool :=
  match s with
  | None => true
  | Some s => bool_decide (s = "")
  end.

Definition main : M unit :=
  let client_id := getenv w "CLIENT_ID" in
  let token := getenv w "TOKEN" in
  if falsy client_id || falsy token then
    logging ERROR "CLIENT_ID or TOKEN not found in environment. Exiting." []
  else
    init_streamers;;
    streamers ← scrape;
    print "Streamers:" (AVals streamers);;
    history ← history;
    database streamers;;
    streamer_lines ← format history;
    print "Formatted streamer lines:" (ATables streamer_lines);;
    append streamer_lines.
End Program.

(** A run of [main] starts with an empty trace and no open connection. *)
Definition initial (db : catalog) : state :=
  {| trace := []; streamers := []; history_data := []; committed := db;
     session := None |}.


(** * Specification vocabulary *)

Definition is_http (e : event) : bool :=
  match e with HttpGet _ => true | _ => false end.

Definition is_db (e : event) : bool :=
  match e with
  | DbConnect | DbExecute _ | DbRollback | DbCommit | DbClose => true
  | _ => false
  end.

Definition is_execute (e : event) : bool :=
  match e with DbExecute _ => true | _ => false end.

Definition is_insert (e : event) : bool :=
  match e with
  | DbExecute (InsertOnConflictDoNothing _ _) => true
  | _ => false
  end.

(** The small letter of a capital letter, from the alphabet; every other
    character is kept. *)
Definition letters : list (ascii * ascii) :=
  zip (Stdlib.Strings.String.list_ascii_of_string "ABCDEFGHIJKLMNOPQRSTUVWXYZ")
      (Stdlib.Strings.String.list_ascii_of_string "abcdefghijklmnopqrstuvwxyz").

Definition small_letter (c : ascii) : ascii := default c (dict_get letters c).

Fixpoint lowercase (key : string) : string :=
  match key with
  | EmptyString => EmptyString
  | String c key' => String (small_letter c) (lowercase key')
  end.

(** The storage table name of an entity key: the fixed prefix applied to the
    lowercased key.  The lowercase form of a key of ASCII characters has
    small letters for its capitals; that of another key is the runtime's. *)
Definition table_name (w : world) (key : string) : string :=
  "streamer_" +:+ (if is_ascii key then lowercase key else unicode_lower w key).

(** The table of the server that holds the records of an entity key. *)
Definition table_of (w : world) (key : string) : string :=
  identifier w (table_name w key).

Definition is_upper (c : ascii) : Prop := (65 ≤ nat_of_ascii c ≤ 90)%nat.

(** Two characters that are equal, or an ASCII capital and its small letter. *)
Definition case_variant (c1 c2 : ascii) : Prop :=
  c1 = c2
  ∨ (is_upper c1 ∧ nat_of_ascii c2 = (nat_of_ascii c1 + 32)%nat)
  ∨ (is_upper c2 ∧ nat_of_ascii c1 = (nat_of_ascii c2 + 32)%nat).

(** Two keys that differ at most in letter case. *)
Inductive same_up_to_case : string → string → Prop :=
| same_empty : same_up_to_case "" ""
| same_char c1 c2 s1 s2 :
    case_variant c1 c2 → same_up_to_case s1 s2 →
    same_up_to_case (String c1 s1) (String c2 s2).

(** The metric of a ranking entry: its [average_viewers] member, and 0 for
    an entry without the member. *)
Definition metric (s : pydict) : scalar :=
  match dict_get s "average_viewers" with
  | Some v => v
  | None => SInt 0
  end.

(** The integer metric of an entry with an integer or absent
    [average_viewers]. *)
Definition viewers (s : pydict) : Z :=
  match dict_get s "average_viewers" with
  | Some (SInt z) => z
  | _ => 0
  end.

(** The order of metrics: integers by value, strings by code points. *)
Definition metric_lt (a b : scalar) : Prop :=
  match a, b with
  | SInt x, SInt y => x < y
  | SStr x, SStr y => Stdlib.Strings.String.compare x y = Lt
  | _, _ => False
  end.

(** [sorted_data] is [data] ranked: the same entries, no entry before one
    with a larger metric, and entries with equal metrics in the order of
    [data]. *)
Definition ranked (data sorted_data : list pydict) : Prop :=
  sorted_data ≡ₚ data
  ∧ StronglySorted (λ a b, ¬ metric_lt (metric a) (metric b)) sorted_data
  ∧ ∀ v, filter (λ s, metric s = v) sorted_data = filter (λ s, metric s = v) data.

(** Metrics that can be compared with each other: all integers (or
    missing), or all strings; a single entry is never compared. *)
Definition comparable (data : list pydict) : Prop :=
  (length data ≤ 1)%nat
  ∨ Forall (λ s, ∃ z, metric s = SInt z) data
  ∨ Forall (λ s, ∃ x, metric s = SStr x) data.

(** An entry that carries [channel_name]. *)
Definition named (s : pydict) : Prop := is_Some (dict_get s "channel_name").

(** The keys of [l] are the integers [val]. *)
Definition int_keys {A : Type} (key : A → scalar) (val : A → Z) (l : list A)
  : Prop :=
  Forall (λ y, key y = SInt (val y)) l.

(** [l] is in descending order of [val]. *)
Definition descending {A : Type} (val : A → Z) (l : list A) : Prop :=
  StronglySorted (λ a b, val b ≤ val a) l.

(** An entry whose [average_viewers] is an integer or is missing. *)
Definition integer_or_absent (s : pydict) : Prop :=
  match dict_get s "average_viewers" with
  | None | Some (SInt _) => True
  | Some _ => False
  end.

(** The rows a table holds for one period. *)
Definition rows_for (c : catalog) (t d : string) : list row :=
  filter (λ r, row_date r = d) (default [] (c !! t)).

(** The PRIMARY KEY constraint: no table holds two rows with one [date]. *)
Definition primary_key (c : catalog) : Prop :=
  ∀ t rows, c !! t = Some rows → NoDup (row_date <$> rows).

(** The INSERTs of [append], in execution order. *)
Definition batch (streamer_lines : dict string (list line))
  : list (string * line) :=
  concat (map (λ '(t, lines), map (pair t) lines) streamer_lines).

(** The tuples of a batch with the tables their names denote. *)
Definition resolved (w : world) (rows : list (string * line))
  : list (string * line) :=
  map (λ tl, (identifier w tl.1, tl.2)) rows.

(** The transaction's catalog after one INSERT of [append]: a raising INSERT
    is followed by [conn.rollback()], which returns to the committed catalog
    [base]. *)
Definition insert_step (eng : line → option row) (base c : catalog)
    (tl : string * line) : catalog :=
  default base (run_statement eng (InsertOnConflictDoNothing tl.1 tl.2) c).

Definition insert_all (eng : line → option row) (base : catalog)
    (rows : list (string * line)) (c : catalog) : catalog :=
  fold_left (insert_step eng base) rows c.

(** The events of those INSERTs. *)
Fixpoint insert_events (w : world) (base : catalog)
    (rows : list (string * line)) (c : catalog) : list event :=
  match rows with
  | [] => []
  | (t, l) :: rows' =>
      match run_statement (engine w)
              (InsertOnConflictDoNothing (identifier w t) l) c with
      | Some c' =>
          DbExecute (InsertOnConflictDoNothing t l)
            :: insert_events w base rows' c'
      | None =>
          DbExecute (InsertOnConflictDoNothing t l)
            :: Log ERROR "Error inserting line {} into {}: {}"
                 [ALine l; AStr t; AExn DatabaseError]
            :: DbRollback
            :: insert_events w base rows' base
      end
  end.

(** The catalog after the CREATE TABLE statements of [database]. *)
Definition create_table (c : catalog) (t : string) : catalog :=
  match c !! t with
  | Some _ => c
  | None => <[t := []]> c
  end.

(** What one history request contributes to a streamer's records: the
    response's object tagged with the period, or nothing when the request
    failed or carried no data. *)
Definition fetched (w : world) (streamer : scalar) (period : string)
  : list pydict :=
  let response := channel_api w (history_url streamer period) in
  if bool_decide (status_code response = 200) then
    match default [] (json_data response) with
    | [] => []
    | d :: data => [dict_set (d :: data) "date" (SStr period)]
    end
  else [].

Definition collected (w : world) (streamer : scalar) : list pydict :=
  fetched w streamer "7-days" ++ fetched w streamer "last-month"
    ++ fetched w streamer "last-year".

(** An engine that accepts a tuple with a text date and metrics that are
    NULL or fit a 32-bit INTEGER, and rejects every other tuple. *)
Definition int4 (v : scalar) : option (option Z) :=
  match v with
  | SNull => Some None
  | SInt z =>
      if bool_decide (-2147483648 ≤ z < 2147483648) then Some (Some z) else None
  | SStr _ => None
  end.

Definition strict_engine (l : line) : option row :=
  match l with
  | (SStr date, avg_viewers, stream_days) =>
      a ← int4 avg_viewers; d ← int4 stream_days; Some (date, a, d)
  | _ => None
  end.

(** The runtime's lowercase form of the strings with other than ASCII
    characters that occur in the samples ([str.lower] of Python 3), and the
    server's reading of a name of single-byte characters (the first 63
    bytes). *)
Definition sample_lower (s : string) : string :=
  if decide (s = "ΌΣΟΣ") then "όσος"
  else if decide (s = "École") then "école"
  else s.

Definition clip63 (name : string) : string :=
  Stdlib.Strings.String.substring 0 63 name.

Definition credentials (k : string) : option string :=
  if decide (k = "CLIENT_ID") then Some "id"
  else if decide (k = "TOKEN") then Some "token"
  else None.

(** Sample worlds. *)
Definition no_creds : world :=
  {| getenv := λ _, None;
     ranking_api := λ _, {| status_code := 200; text := ""; json_data := None |};
     channel_api := λ _, {| status_code := 200; text := ""; json_data := None |};
     unicode_lower := sample_lower; identifier := clip63;
     engine := strict_engine |}.

Definition ranking_down : world :=
  {| getenv := credentials;
     ranking_api := λ _,
       {| status_code := 500; text := "Internal Server Error";
          json_data := None |};
     channel_api := λ _, {| status_code := 200; text := ""; json_data := None |};
     unicode_lower := sample_lower; identifier := clip63;
     engine := strict_engine |}.

(** The history map after the requests for the streamers [ss], starting
    from the map [h]. *)
Definition history_map (w : world) (ss : list scalar)
    (h : dict scalar (list pydict)) : dict scalar (list pydict) :=
  fold_left (λ h s, dict_set h s (collected w s)) ss h.

(** The tuple of one history record, in the spec's words: the period label
    and the two metrics as the record has them, a missing member as null. *)
Definition record_line (record : pydict) : line :=
  (get_or_none record "date", get_or_none record "average_viewers",
   get_or_none record "stream_days").

(** The tuple passes the members of the record through: each position
    holds the record's member, and null when the record lacks the member. *)
Definition passed_through (record : pydict) (l : line) : Prop :=
  (∀ v, dict_get record "date" = Some v → l.1.1 = v)
  ∧ (dict_get record "date" = None → l.1.1 = SNull)
  ∧ (∀ v, dict_get record "average_viewers" = Some v → l.1.2 = v)
  ∧ (dict_get record "average_viewers" = None → l.1.2 = SNull)
  ∧ (∀ v, dict_get record "stream_days" = Some v → l.2 = v)
  ∧ (dict_get record "stream_days" = None → l.2 = SNull).

(** The table has a stored row for the period. *)
Definition has_row (c : catalog) (t d : string) : Prop :=
  ∃ rows r, c !! t = Some rows ∧ r ∈ rows ∧ row_date r = d.

Definition failed_response {A : Type} : response A :=
  {| status_code := 500; text := "Internal Server Error"; json_data := None |}.

(** The ranking of the spec's scenario, and one answered history request. *)
Definition two_streamers : world :=
  {| getenv := credentials;
     ranking_api := λ _,
       {| status_code := 200; text := "";
          json_data :=
            Some [[("channel_name", SStr "bar"); ("average_viewers", SInt 50)];
                  [("channel_name", SStr "foo"); ("average_viewers", SInt 100)]] |};
     channel_api := λ url,
       if decide (url = history_url (SStr "foo") "7-days") then
         {| status_code := 200; text := "";
            json_data := Some [("average_viewers", SInt 120);
                               ("stream_days", SInt 5)] |}
       else failed_response;
     unicode_lower := sample_lower; identifier := clip63;
     engine := strict_engine |}.

(** A successful ranking response with an entry that has no channel name
    and an entry that has no metric. *)
Definition nameless_entry : world :=
  {| getenv := credentials;
     ranking_api := λ _,
       {| status_code := 200; text := "";
          json_data :=
            Some [[("channel_name", SStr "baz")];
                  [("average_viewers", SInt 50)];
                  [("channel_name", SStr "foo"); ("average_viewers", SInt 100)]] |};
     channel_api := λ _, failed_response;
     unicode_lower := sample_lower; identifier := clip63;
     engine := strict_engine |}.

(** A batch whose second tuple does not fit INTEGER. *)
Definition foo_catalog : catalog := {["streamer_foo" := []]}.

Definition overflowing_batch : dict string (list line) :=
  [("streamer_foo",
    [(SStr "7-days", SInt 120, SInt 5);
     (SStr "last-month", SInt 3000000000, SInt 20);
     (SStr "last-year", SInt 90, SInt 200)])].

(** A table that already holds a row for the period [7-days]. *)
Definition foo_week_stored : catalog :=
  {["streamer_foo" := [("7-days", Some 100, Some 4)]]}.

(** The tuples a run inserts for the streamers [names], in order: for each
    streamer, under its table name, the tuples of its collected records. *)
Definition run_batch (w : world) (names : list string) : list (string * line) :=
  concat (map (λ k, map (λ record, (table_name w k, record_line record))
                      (collected w (SStr k))) names).

(** A batch that starts with a tuple that does not fit INTEGER. *)
Definition overflow_then_week : dict string (list line) :=
  [("streamer_foo",
    [(SStr "last-month", SInt 3000000000, SInt 20);
     (SStr "7-days", SInt 120, SInt 5)])].

(** A ranking of two streamers whose names differ in letter case; the
    request for [Foo]'s last 7 days is answered, every other request
    fails. *)
Definition case_collision : world :=
  {| getenv := credentials;
     ranking_api := λ _,
       {| status_code := 200; text := "";
          json_data :=
            Some [[("channel_name", SStr "Foo"); ("average_viewers", SInt 100)];
                  [("channel_name", SStr "foo"); ("average_viewers", SInt 50)]] |};
     channel_api := λ url,
       if decide (url = history_url (SStr "Foo") "7-days") then
         {| status_code := 200; text := "";
            json_data := Some [("average_viewers", SInt 120);
                               ("stream_days", SInt 5)] |}
       else failed_response;
     unicode_lower := sample_lower; identifier := clip63;
     engine := strict_engine |}.

(** What a run does after a ranking request that produced no streamer. *)
Definition empty_run_events : list event :=
  [Print "Streamers:" (AVals []);
   Log INFO "Fetching history for each streamer at multiple time points..." [];
   Log INFO "Checking/creating PostgreSQL tables for each streamer..." [];
   DbConnect; DbCommit; DbClose;
   Log INFO "All streamer tables ready." [];
   Log INFO "Formatting history data for per-streamer table insertion..." [];
   Print "Formatted streamer lines:" (ATables []);
   Log INFO "Appending data to each streamer's table in PostgreSQL..." [];
   DbConnect; DbCommit; DbClose;
   Log INFO "All data appended to streamer tables." []].

(** A world where every history request of the two streamers fails except
    [foo]'s request for the last 7 days. *)
Definition one_week_answered : world := two_streamers.


(** ** Vocabulary of the further properties *)

(** Every table of [base] is a table of [c] with the same rows in front. *)
Definition extends (base c : catalog) : Prop :=
  ∀ t rows, base !! t = Some rows → ∃ more, c !! t = Some (rows ++ more).

(** [c] has the tables of [base] and no others. *)
Definition same_tables (base c : catalog) : Prop :=
  ∀ t, is_Some (c !! t) ↔ is_Some (base !! t).

(** An INSERT of the tuple can succeed: the table exists and the engine
    accepts the tuple. *)
Definition insertable (eng : line → option row) (base : catalog)
    (tl : string * line) : Prop :=
  is_Some (base !! tl.1) ∧ is_Some (eng tl.2).

(** The tuple's period is stored in its table. *)
Definition stored (eng : line → option row) (c : catalog)
    (tl : string * line) : Prop :=
  ∃ r, eng tl.2 = Some r ∧ has_row c tl.1 (row_date r).

Definition insert_of (tl : string * line) : event :=
  DbExecute (InsertOnConflictDoNothing tl.1 tl.2).

(** A batch for two tables with a tuple that does not fit INTEGER. *)
Definition week_then_overflow : dict string (list line) :=
  [("streamer_foo",
    [(SStr "last-month", SInt 7, SInt 1);
     (SStr "last-year", SInt 3000000000, SInt 20)]);
   ("streamer_bar", [(SStr "7-days", SInt 1, SInt 1)])].

Definition is_sleep (e : event) : bool :=
  match e with Sleep => true | _ => false end.

(** The events of one history request: the request, the record of its
    outcome that passes the log level, and the pause. *)
Definition request_events (w : world) (s : scalar) (p : string) : list event :=
  let response := channel_api w (history_url s p) in
  HttpGet (history_url s p)
  :: (if bool_decide (status_code response = 200) then
        match default [] (json_data response) with
        | [] => []
        | _ :: _ =>
            [Log INFO "History record for {} ({}) added." [AVal s; AStr p]]
        end
      else
        [Log ERROR "Failed to fetch history for {} ({}): {} {}"
           [AVal s; AStr p; AInt (status_code response); AStr (text response)]])
  ++ [Sleep].

Definition streamer_events (w : world) (s : scalar) : list event :=
  request_events w s "7-days" ++ request_events w s "last-month"
    ++ request_events w s "last-year".

Definition history_events (w : world) (ss : list scalar) : list event :=
  Log INFO "Fetching history for each streamer at multiple time points..." []
  :: concat (map (streamer_events w) ss).

(** A ranking whose second entry has a null metric, and one with a numeric
    channel name. *)
Definition null_metric : world :=
  {| getenv := credentials;
     ranking_api := λ _,
       {| status_code := 200; text := "";
          json_data :=
            Some [[("channel_name", SStr "foo"); ("average_viewers", SInt 100)];
                  [("channel_name", SStr "bar"); ("average_viewers", SNull)]] |};
     channel_api := λ _, failed_response;
     unicode_lower := sample_lower; identifier := clip63;
     engine := strict_engine |}.

Definition numeric_name : world :=
  {| getenv := credentials;
     ranking_api := λ _,
       {| status_code := 200; text := "";
          json_data :=
            Some [[("channel_name", SStr "foo"); ("average_viewers", SInt 100)];
                  [("channel_name", SInt 5); ("average_viewers", SInt 50)]] |};
     channel_api := λ _, failed_response;
     unicode_lower := sample_lower; identifier := clip63;
     engine := strict_engine |}.

(** * Properties *)

(** ** Dictionaries *)

Section DictFacts.
Context {K V : Type} `{EqDecision K}.
Implicit Types (d : dict K V) (k : K) (v : V).

Lemma dict_get_set_eq d k v : dict_get (dict_set d k v) k = Some v.
Proof.
  induction d as [| [k' v'] d IH]; cbn.
  - rewrite decide_True by done. done.
  - destruct (decide (k' = k)) as [-> | Hne]; cbn.
    + rewrite decide_True by done. done.
    + rewrite decide_False by done. exact IH.
Qed.

Lemma dict_get_set_ne d k k' v :
  k ≠ k' → dict_get (dict_set d k v) k' = dict_get d k'.
Proof.
  intros Hne. induction d as [| [k0 v0] d IH]; cbn.
  - rewrite decide_False by done. done.
  - destruct (decide (k0 = k)) as [-> | Hne0]; cbn.
    + rewrite !decide_False by done. done.
    + destruct (decide (k0 = k')); [done | exact IH].
Qed.

Lemma dict_set_set d k v v' : dict_set (dict_set d k v) k v' = dict_set d k v'.
Proof.
  induction d as [| [k0 v0] d IH]; cbn.
  - rewrite decide_True by done. done.
  - destruct (decide (k0 = k)) as [-> | Hne]; cbn.
    + rewrite decide_True by done. done.
    + rewrite decide_False by done. by rewrite IH.
Qed.

Lemma dict_set_id d k v : dict_get d k = Some v → dict_set d k v = d.
Proof.
  induction d as [| [k0 v0] d IH]; cbn; [done |].
  destruct (decide (k0 = k)) as [-> | Hne].
  - by intros [= ->].
  - intros Hget. by rewrite IH.
Qed.

Lemma dict_get_Some_elem d k v : dict_get d k = Some v → (k, v) ∈ d.
Proof.
  induction d as [| [k0 v0] d IH]; cbn; [done |].
  destruct (decide (k0 = k)) as [-> | Hne].
  - intros [= ->]. left.
  - intros Hget. right. by apply IH.
Qed.
End DictFacts.

(** ** Table names *)

Lemma lower_char_variant c1 c2 :
  case_variant c1 c2 → lower_char c1 = lower_char c2.
Proof.
  assert (Hup : ∀ a b, is_upper a → nat_of_ascii b = (nat_of_ascii a + 32)%nat →
                       lower_char a = lower_char b).
  { intros a b [Hlo Hhi] Hb. unfold lower_char. rewrite Hb.
    destruct (Nat.leb_spec 65 (nat_of_ascii a)); [| lia].
    destruct (Nat.leb_spec (nat_of_ascii a) 90); [| lia].
    destruct (Nat.leb_spec (nat_of_ascii a + 32) 90); [lia |].
    rewrite andb_false_r. cbn [andb].
    rewrite <- Hb. apply ascii_nat_embedding. }
  intros [-> | [[Hu Hn] | [Hu Hn]]]; [done | by apply Hup |].
  symmetry. by apply Hup.
Qed.

Lemma lower_same_up_to_case k1 k2 :
  same_up_to_case k1 k2 → lower_ascii k1 = lower_ascii k2.
Proof.
  induction 1 as [| c1 c2 s1 s2 Hc _ IH]; cbn; [done |].
  by rewrite (lower_char_variant _ _ Hc), IH.
Qed.

(** The lowercase form that the program computes on ASCII characters is
    the one of the alphabet. *)
Lemma lower_char_small c : lower_char c = small_letter c.
Proof. by destruct c as [[] [] [] [] [] [] [] []]. Qed.

Lemma lower_ascii_lowercase k : lower_ascii k = lowercase k.
Proof. induction k as [| c k IH]; cbn; [done |]. by rewrite lower_char_small, IH. Qed.

Lemma lower_table_name (w : world) k : "streamer_" +:+ lower w k = table_name w k.
Proof.
  unfold lower, table_name. destruct (is_ascii k); [| done].
  by rewrite lower_ascii_lowercase.
Qed.

Lemma table_name_ascii (w : world) k :
  is_ascii k = true → table_name w k = "streamer_" +:+ lowercase k.
Proof. unfold table_name. by intros ->. Qed.

Lemma case_variant_ascii c1 c2 :
  case_variant c1 c2 → is_ascii_char c1 = is_ascii_char c2.
Proof.
  unfold case_variant, is_upper, is_ascii_char.
  intros [-> | [[Hu Hn] | [Hu Hn]]]; [done | |].
  - rewrite Hn. destruct (Nat.ltb_spec (nat_of_ascii c1) 128),
      (Nat.ltb_spec (nat_of_ascii c1 + 32) 128); (done || lia).
  - rewrite Hn. destruct (Nat.ltb_spec (nat_of_ascii c2) 128),
      (Nat.ltb_spec (nat_of_ascii c2 + 32) 128); (done || lia).
Qed.

Lemma same_up_to_case_ascii k1 k2 :
  same_up_to_case k1 k2 → is_ascii k1 = is_ascii k2.
Proof.
  induction 1 as [| c1 c2 s1 s2 Hc _ IH]; cbn [is_ascii]; [done |].
  by rewrite (case_variant_ascii _ _ Hc), IH.
Qed.

(** ** Running monadic code *)

Lemma bind_ok {A B : Type} (m : M A) (f : A → M B) st a st' :
  m st = (Ok a, st') → (m ≫= f) st = f a st'.
Proof. intros Hm. unfold mbind, M_bind. by rewrite Hm. Qed.

Lemma bind_raise {A B : Type} (m : M A) (f : A → M B) st e st' :
  m st = (Raise e, st') → (m ≫= f) st = (Raise e, st').
Proof. intros Hm. unfold mbind, M_bind. by rewrite Hm. Qed.

Lemma for_each_cons_ok {A : Type} (x : A) (l : list A) (body : A → M unit) st st' :
  body x st = (Ok (), st') → for_each (x :: l) body st = for_each l body st'.
Proof.
  intros Hx. exact (bind_ok (body x) (λ _, for_each l body) st () st' Hx).
Qed.

Lemma logging_info fmt args st :
  logging INFO fmt args st =
  (Ok (),
   {| trace := trace st ++ [Log INFO fmt args]; streamers := streamers st;
      history_data := history_data st; committed := committed st;
      session := session st |}).
Proof. reflexivity. Qed.

Lemma logging_error fmt args st :
  logging ERROR fmt args st =
  (Ok (),
   {| trace := trace st ++ [Log ERROR fmt args]; streamers := streamers st;
      history_data := history_data st; committed := committed st;
      session := session st |}).
Proof. reflexivity. Qed.

Lemma logging_debug fmt args st : logging DEBUG fmt args st = (Ok (), st).
Proof. reflexivity. Qed.

(** One step of a sequence whose first command evaluates by computation. *)
Ltac fields := cbn [trace streamers history_data committed session].
Ltac step := erewrite bind_ok by reflexivity; fields.
(** The last command of a sequence, when it only emits an event. *)
Ltac finish :=
  unfold time_sleep, print, emit; rewrite ?logging_info, ?logging_error;
  fields; rewrite <- ?app_assoc; reflexivity.
(** One step of a sequence whose first command is described by a lemma. *)
Ltac step_with H := erewrite bind_ok by (apply H); fields.

(** ** The database connection *)

Lemma run_create_table eng t c :
  run_statement eng (CreateTableIfNotExists t) c = Some (create_table c t).
Proof. unfold run_statement, create_table. by destruct (c !! t). Qed.

Lemma execute_create_table (w : world) t tr ss hd cm c :
  execute w (CreateTableIfNotExists t)
    {| trace := tr; streamers := ss; history_data := hd; committed := cm;
       session := Some c |}
  = (Ok (),
     {| trace := tr ++ [DbExecute (CreateTableIfNotExists t)]; streamers := ss;
        history_data := hd; committed := cm;
        session := Some (create_table c (identifier w t)) |}).
Proof.
  unfold execute. step. step. cbn [resolve]. rewrite run_create_table.
  reflexivity.
Qed.

Lemma create_tables_loop (w : world) (names : list string) :
  ∀ tr ss hd cm c,
    for_each (SStr <$> names) (λ streamer,
      lowered ← lift (py_lower w streamer);
      execute w (CreateTableIfNotExists ("streamer_" +:+ lowered)))
      {| trace := tr; streamers := ss; history_data := hd; committed := cm;
         session := Some c |}
    = (Ok (),
       {| trace :=
            tr ++ map (λ k, DbExecute (CreateTableIfNotExists (table_name w k)))
                    names;
          streamers := ss; history_data := hd; committed := cm;
          session := Some (fold_left create_table (table_of w <$> names) c) |}).
Proof.
  induction names as [| k names IH]; intros tr ss hd cm c.
  - cbn. by rewrite app_nil_r.
  - rewrite fmap_cons. erewrite for_each_cons_ok.
    2: { step. rewrite lower_table_name. apply execute_create_table. }
    rewrite IH. cbn. by rewrite <- app_assoc.
Qed.

(** [database] on string keys: one CREATE TABLE per key, committed. *)
Lemma database_strings (w : world) (names : list string) tr ss hd cm se :
  database w (SStr <$> names)
    {| trace := tr; streamers := ss; history_data := hd; committed := cm;
       session := se |}
  = (Ok (),
     {| trace :=
          tr ++ [Log INFO "Checking/creating PostgreSQL tables for each streamer..." [];
                 DbConnect]
             ++ map (λ k, DbExecute (CreateTableIfNotExists (table_name w k))) names
             ++ [DbCommit; DbClose; Log INFO "All streamer tables ready." []];
        streamers := ss; history_data := hd;
        committed := fold_left create_table (table_of w <$> names) cm;
        session := None |}).
Proof.
  unfold database. step. step. step_with create_tables_loop.
  step. step. rewrite logging_info. fields. by rewrite <- !app_assoc.
Qed.

Lemma execute_eq (w : world) stmt tr ss hd cm c :
  execute w stmt
    {| trace := tr; streamers := ss; history_data := hd; committed := cm;
       session := Some c |}
  = match run_statement (engine w) (resolve w stmt) c with
    | Some c' =>
        (Ok (),
         {| trace := tr ++ [DbExecute stmt]; streamers := ss;
            history_data := hd; committed := cm; session := Some c' |})
    | None =>
        (Raise DatabaseError,
         {| trace := tr ++ [DbExecute stmt]; streamers := ss;
            history_data := hd; committed := cm; session := Some c |})
    end.
Proof.
  unfold execute. step. step. by destruct (run_statement _ _ _).
Qed.

(** ** [append] as a fold over its INSERTs *)

Lemma insert_all_app eng base rows1 rows2 c :
  insert_all eng base (rows1 ++ rows2) c
  = insert_all eng base rows2 (insert_all eng base rows1 c).
Proof. apply fold_left_app. Qed.

Lemma resolved_app (w : world) rows1 rows2 :
  resolved w (rows1 ++ rows2) = resolved w rows1 ++ resolved w rows2.
Proof. apply map_app. Qed.

Lemma resolved_cons (w : world) t l rows :
  resolved w ((t, l) :: rows) = (identifier w t, l) :: resolved w rows.
Proof. reflexivity. Qed.

Lemma insert_events_app (w : world) base rows1 rows2 :
  ∀ c, insert_events w base (rows1 ++ rows2) c
       = insert_events w base rows1 c
           ++ insert_events w base rows2
                (insert_all (engine w) base (resolved w rows1) c).
Proof.
  induction rows1 as [| [t l] rows1 IH]; intros c; [done |].
  assert (Hstep : insert_step (engine w) base c (identifier w t, l)
                  = default base
                      (run_statement (engine w)
                         (InsertOnConflictDoNothing (identifier w t) l) c))
    by reflexivity.
  cbn [app insert_events resolved map insert_all fold_left fst snd].
  rewrite Hstep.
  destruct (run_statement _ _ _) as [c' |]; cbn [default];
    rewrite IH; reflexivity.
Qed.

Lemma append_line_eq (w : world) t l tr ss hd cm c :
  append_line w t l
    {| trace := tr; streamers := ss; history_data := hd; committed := cm;
       session := Some c |}
  = (Ok (),
     {| trace := tr ++ insert_events w cm [(t, l)] c; streamers := ss;
        history_data := hd; committed := cm;
        session := Some (insert_step (engine w) cm c (identifier w t, l)) |}).
Proof.
  unfold append_line, try_except, insert_step. rewrite execute_eq.
  cbn [insert_events resolve fst snd].
  destruct (run_statement _ _ _) as [c' |]; [reflexivity |].
  step. unfold rollback. step. step. step. cbn. by rewrite <- !app_assoc.
Qed.

Lemma append_lines_loop (w : world) t lines :
  ∀ tr ss hd cm c,
    for_each lines (append_line w t)
      {| trace := tr; streamers := ss; history_data := hd; committed := cm;
         session := Some c |}
    = (Ok (),
       {| trace := tr ++ insert_events w cm (map (pair t) lines) c;
          streamers := ss; history_data := hd; committed := cm;
          session :=
            Some (insert_all (engine w) cm (resolved w (map (pair t) lines)) c) |}).
Proof.
  induction lines as [| l lines IH]; intros tr ss hd cm c.
  - cbn. by rewrite app_nil_r.
  - erewrite for_each_cons_ok by apply append_line_eq.
    rewrite IH. rewrite <- app_assoc.
    change (map (pair t) (l :: lines)) with ([(t, l)] ++ map (pair t) lines).
    rewrite insert_events_app, resolved_app, insert_all_app. reflexivity.
Qed.

Lemma append_tables_loop (w : world) streamer_lines :
  ∀ tr ss hd cm c,
    for_each streamer_lines (λ '(table_name, lines),
      for_each lines (append_line w table_name))
      {| trace := tr; streamers := ss; history_data := hd; committed := cm;
         session := Some c |}
    = (Ok (),
       {| trace := tr ++ insert_events w cm (batch streamer_lines) c;
          streamers := ss; history_data := hd; committed := cm;
          session :=
            Some (insert_all (engine w) cm (resolved w (batch streamer_lines)) c) |}).
Proof.
  induction streamer_lines as [| [t lines] sl IH]; intros tr ss hd cm c.
  - cbn. by rewrite app_nil_r.
  - erewrite for_each_cons_ok by apply append_lines_loop.
    rewrite IH. rewrite <- app_assoc.
    change (batch ((t, lines) :: sl)) with (map (pair t) lines ++ batch sl).
    rewrite insert_events_app, resolved_app, insert_all_app. reflexivity.
Qed.

(** [append] never raises; its INSERTs run in one transaction that restarts
    from the committed catalog after each failure, and the final catalog is
    committed. *)
Lemma append_eq (w : world) streamer_lines tr ss hd cm se :
  append w streamer_lines
    {| trace := tr; streamers := ss; history_data := hd; committed := cm;
       session := se |}
  = (Ok (),
     {| trace :=
          tr ++ [Log INFO "Appending data to each streamer's table in PostgreSQL..." [];
                 DbConnect]
             ++ insert_events w cm (batch streamer_lines) cm
             ++ [DbCommit; DbClose;
                 Log INFO "All data appended to streamer tables." []];
        streamers := ss; history_data := hd;
        committed :=
          insert_all (engine w) cm (resolved w (batch streamer_lines)) cm;
        session := None |}).
Proof.
  unfold append. step. step. step_with append_tables_loop.
  step. step. rewrite logging_info. fields. by rewrite <- !app_assoc.
Qed.

(** ** Conditional insert *)

Lemma existsb_date_false (rows : table) d :
  existsb (λ r', bool_decide (row_date r' = d)) rows = false →
  filter (λ r, row_date r = d) rows = [] ∧ d ∉ row_date <$> rows.
Proof.
  induction rows as [| r0 rows IH]; cbn [existsb].
  - intros _. split; [done | apply not_elem_of_nil].
  - intros [Hne Hrest]%orb_false_iff. apply bool_decide_eq_false in Hne.
    destruct (IH Hrest) as [Hf Hn]. split.
    + rewrite filter_cons_False by done. exact Hf.
    + rewrite fmap_cons, not_elem_of_cons. split; [congruence | done].
Qed.

Lemma existsb_date_true (rows : table) d :
  existsb (λ r', bool_decide (row_date r' = d)) rows = true →
  NoDup (row_date <$> rows) →
  ∃ r0, r0 ∈ rows ∧ row_date r0 = d ∧ filter (λ r, row_date r = d) rows = [r0].
Proof.
  induction rows as [| r1 rows IH]; cbn [existsb]; [done |].
  intros Hex Hnd. rewrite fmap_cons in Hnd.
  apply NoDup_cons in Hnd as [Hnotin Hnd].
  destruct (decide (row_date r1 = d)) as [Heq | Hne].
  - exists r1. split; [left |]. split; [done |].
    rewrite filter_cons_True by done. f_equal.
    destruct (existsb (λ r', bool_decide (row_date r' = d)) rows) eqn:Hrest.
    + destruct (IH eq_refl Hnd) as (r0 & Hin & Hd & _).
      destruct Hnotin. rewrite Heq, <- Hd. by apply list_elem_of_fmap_2.
    + by apply existsb_date_false in Hrest as [-> _].
  - rewrite (bool_decide_eq_false_2 _ Hne) in Hex. cbn in Hex.
    destruct (IH Hex Hnd) as (r0 & Hin & Hd & Hf).
    exists r0. split; [by right |]. split; [done |].
    by rewrite filter_cons_False.
Qed.

(** A successful INSERT either finds the period stored and changes nothing,
    or stores the row after the table's rows. *)
Lemma insert_step_stored eng base (c : catalog) t l rows r :
  c !! t = Some rows → eng l = Some r →
  insert_step eng base c (t, l)
  = if existsb (λ r', bool_decide (row_date r' = row_date r)) rows
    then c else <[t := rows ++ [r]]> c.
Proof.
  intros Ht Hl. unfold insert_step, run_statement. cbn [fst snd].
  rewrite Ht, Hl. by destruct (existsb _ _).
Qed.

Lemma primary_key_insert (c : catalog) t rows r :
  primary_key c → c !! t = Some rows → row_date r ∉ row_date <$> rows →
  primary_key (<[t := rows ++ [r]]> c).
Proof.
  intros Hpk Ht Hfresh t' rows'. rewrite lookup_insert.
  case_decide as Heq.
  - intros [= <-]. rewrite fmap_app. apply NoDup_app. split; [by eapply Hpk |].
    split; [| apply NoDup_singleton].
    intros d Hd [-> | []%elem_of_nil]%elem_of_cons. done.
  - apply Hpk.
Qed.

(** The INSERT keeps the PRIMARY KEY constraint, whatever its outcome. *)
Lemma primary_key_insert_step eng (base c : catalog) tl :
  primary_key base → primary_key c → primary_key (insert_step eng base c tl).
Proof.
  intros Hbase Hc. destruct tl as [t l]. unfold insert_step, run_statement.
  cbn [fst snd]. destruct (c !! t) as [rows |] eqn:Ht; [| done].
  destruct (eng l) as [r |]; [| done].
  destruct (existsb _ rows) eqn:Hex; cbn [default]; [done |].
  apply existsb_date_false in Hex as [_ Hfresh]. by apply primary_key_insert.
Qed.

Lemma primary_key_insert_all eng (base : catalog) rows :
  primary_key base → ∀ c, primary_key c → primary_key (insert_all eng base rows c).
Proof.
  intros Hbase. induction rows as [| tl rows IH]; intros c Hc; [done |].
  cbn. apply IH. by apply primary_key_insert_step.
Qed.

(** ** The history requests *)

Lemma history_append_eq s data tr ss hd cm se recs :
  dict_get hd s = Some recs →
  history_append s data
    {| trace := tr; streamers := ss; history_data := hd; committed := cm;
       session := se |}
  = (Ok (),
     {| trace := tr; streamers := ss;
        history_data := dict_set hd s (recs ++ [data]);
        committed := cm; session := se |}).
Proof. intros Hget. unfold history_append. step. by rewrite Hget. Qed.

Lemma history_request_eq (w : world) s p tr ss hd cm se recs :
  dict_get hd s = Some recs →
  ∃ evs,
    history_request w s p
      {| trace := tr; streamers := ss; history_data := hd; committed := cm;
         session := se |}
    = (Ok (),
       {| trace := tr ++ evs; streamers := ss;
          history_data := dict_set hd s (recs ++ fetched w s p);
          committed := cm; session := se |})
    ∧ Forall (λ e, is_db e = false) evs.
Proof.
  intros Hget. unfold history_request, fetched. step. step. step.
  destruct (bool_decide (status_code (channel_api w (history_url s p)) = 200)).
  - destruct (default [] (json_data (channel_api w (history_url s p))))
      as [| d data].
    + exists [HttpGet (history_url s p); Sleep]. split; [| by repeat constructor].
      step. rewrite app_nil_r, (dict_set_id _ _ _ Hget).
      finish.
    + exists [HttpGet (history_url s p);
              Log INFO "History record for {} ({}) added." [AVal s; AStr p];
              Sleep].
      split; [| by repeat constructor].
      erewrite bind_ok.
      2: { erewrite bind_ok by (by apply history_append_eq).
           apply logging_info. }
      fields. finish.
  - exists [HttpGet (history_url s p);
            Log ERROR "Failed to fetch history for {} ({}): {} {}"
              [AVal s; AStr p;
               AInt (status_code (channel_api w (history_url s p)));
               AStr (text (channel_api w (history_url s p)))];
            Sleep].
    split; [| by repeat constructor].
    step. rewrite app_nil_r, (dict_set_id _ _ _ Hget).
    finish.
Qed.

Lemma history_streamer_eq (w : world) s tr ss hd cm se :
  ∃ evs,
    (h ← gets history_data;
     set_history_data (dict_set h s []);;
     for_each time_periods (history_request w s))
      {| trace := tr; streamers := ss; history_data := hd; committed := cm;
         session := se |}
    = (Ok (),
       {| trace := tr ++ evs; streamers := ss;
          history_data := dict_set hd s (collected w s);
          committed := cm; session := se |})
    ∧ Forall (λ e, is_db e = false) evs.
Proof.
  step. step. unfold time_periods.
  destruct (history_request_eq w s "7-days" tr ss (dict_set hd s []) cm se []
              (dict_get_set_eq _ _ _)) as (ev1 & E1 & F1).
  rewrite dict_set_set in E1.
  destruct (history_request_eq w s "last-month" (tr ++ ev1) ss _ cm se _
              (dict_get_set_eq hd s ([] ++ fetched w s "7-days")))
    as (ev2 & E2 & F2).
  rewrite dict_set_set in E2.
  destruct (history_request_eq w s "last-year" ((tr ++ ev1) ++ ev2) ss _ cm se _
              (dict_get_set_eq hd s
                 (([] ++ fetched w s "7-days") ++ fetched w s "last-month")))
    as (ev3 & E3 & F3).
  rewrite dict_set_set in E3.
  exists (ev1 ++ ev2 ++ ev3). split.
  - erewrite for_each_cons_ok by exact E1.
    erewrite for_each_cons_ok by exact E2.
    erewrite for_each_cons_ok by exact E3.
    cbn [for_each]. unfold collected. rewrite app_nil_l, <- !app_assoc.
    reflexivity.
  - rewrite !Forall_app. done.
Qed.

Lemma history_loop (w : world) (ss0 : list scalar) :
  ∀ tr ss hd cm se,
  ∃ evs,
    for_each ss0 (λ streamer,
      h ← gets history_data;
      set_history_data (dict_set h streamer []);;
      for_each time_periods (history_request w streamer))
      {| trace := tr; streamers := ss; history_data := hd; committed := cm;
         session := se |}
    = (Ok (),
       {| trace := tr ++ evs; streamers := ss;
          history_data := history_map w ss0 hd;
          committed := cm; session := se |})
    ∧ Forall (λ e, is_db e = false) evs.
Proof.
  induction ss0 as [| s ss0 IH]; intros tr ss hd cm se.
  - exists []. split; [| done]. cbn. by rewrite app_nil_r.
  - destruct (history_streamer_eq w s tr ss hd cm se) as (ev1 & E1 & F1).
    destruct (IH (tr ++ ev1) ss (dict_set hd s (collected w s)) cm se)
      as (ev2 & E2 & F2).
    exists (ev1 ++ ev2). split; [| by rewrite Forall_app].
    erewrite for_each_cons_ok by exact E1. rewrite E2.
    by rewrite <- app_assoc.
Qed.

(** [history] never raises: it returns the history map of the streamers,
    and touches neither the database nor [self.streamers]. *)
Lemma history_eq (w : world) tr ss hd cm se :
  ∃ evs,
    history w
      {| trace := tr; streamers := ss; history_data := hd; committed := cm;
         session := se |}
    = (Ok (history_map w ss hd),
       {| trace := tr ++ evs; streamers := ss;
          history_data := history_map w ss hd;
          committed := cm; session := se |})
    ∧ Forall (λ e, is_db e = false) evs.
Proof.
  unfold history.
  destruct (history_loop w ss
              (tr ++ [Log INFO
                 "Fetching history for each streamer at multiple time points..." []])
              ss hd cm se) as (evs & E & F).
  exists (Log INFO
            "Fetching history for each streamer at multiple time points..." []
          :: evs).
  split; [| by constructor].
  step. step. erewrite bind_ok by exact E. fields.
  unfold gets. fields. by rewrite <- app_assoc.
Qed.

Lemma history_map_cons (w : world) s (ss : list scalar) h :
  history_map w (s :: ss) h = history_map w ss (dict_set h s (collected w s)).
Proof. reflexivity. Qed.

Lemma history_map_other (w : world) (ss : list scalar) s :
  s ∉ ss → ∀ h, dict_get (history_map w ss h) s = dict_get h s.
Proof.
  induction ss as [| s0 ss IH]; intros Hnotin h; [done |].
  apply not_elem_of_cons in Hnotin as [Hne Hnotin].
  rewrite history_map_cons, (IH Hnotin). by apply dict_get_set_ne.
Qed.

(** Every requested streamer is a key of the history map, bound to the
    records of the periods that answered. *)
Lemma history_map_lookup (w : world) (ss : list scalar) s :
  s ∈ ss → ∀ h, dict_get (history_map w ss h) s = Some (collected w s).
Proof.
  induction ss as [| s0 ss IH]; intros Hin h; [by apply elem_of_nil in Hin |].
  rewrite history_map_cons.
  destruct (decide (s ∈ ss)) as [Hrest | Hrest]; [by apply IH |].
  apply elem_of_cons in Hin as [-> | Hin]; [| done].
  rewrite (history_map_other _ _ _ Hrest). apply dict_get_set_eq.
Qed.

(** ** Sorting *)

Section SortedFacts.
Context {A : Type} (key : A → scalar).

Lemma insert_desc_perm x : ∀ l l', insert_desc key x l = Ok l' → l' ≡ₚ x :: l.
Proof.
  induction l as [| y l IH]; intros l'; cbn [insert_desc].
  - by intros [= <-].
  - destruct (py_lt (key x) (key y)) as [[] |]; cbn.
    + destruct (insert_desc key x l) as [l0 |]; cbn; [| done].
      intros [= <-]. rewrite (IH l0 eq_refl). apply Permutation_swap.
    + by intros [= <-].
    + done.
Qed.

(** Whatever the keys are, a sort that returns has dropped no element. *)
Lemma sorted_desc_perm : ∀ l l', sorted_desc key l = Ok l' → l' ≡ₚ l.
Proof.
  induction l as [| x l IH]; intros l'; cbn [sorted_desc].
  - by intros [= <-].
  - destruct (sorted_desc key l) as [s |]; cbn; [| done].
    intros Hins%insert_desc_perm. by rewrite Hins, (IH s eq_refl).
Qed.

(** Integer keys. *)
Context (val : A → Z).

Lemma insert_desc_int x :
  key x = SInt (val x) →
  ∀ l, int_keys key val l →
  ∃ l', insert_desc key x l = Ok l'
        ∧ (∀ z, filter (λ y, val y = z) l' = filter (λ y, val y = z) (x :: l))
        ∧ (descending val l → descending val l').
Proof.
  intros Hx. induction l as [| y l IH]; intros Hl; cbn [insert_desc].
  - exists [x]. split; [done |]. split; [done |].
    intros _. by repeat constructor.
  - apply Forall_cons in Hl as [Hy Hl]. rewrite Hx, Hy. cbn.
    case_bool_decide as Hlt.
    + destruct (IH Hl) as (l0 & Hins & Hstable & Hsorted). rewrite Hins. cbn.
      exists (y :: l0). split; [done |]. split.
      * intros z. rewrite !filter_cons, Hstable, filter_cons.
        destruct (decide (val y = z)), (decide (val x = z)); (done || lia).
      * intros Hdesc. apply StronglySorted_inv in Hdesc as [Hdesc Hall].
        constructor; [by apply Hsorted |].
        assert (Hperm : l0 ≡ₚ x :: l) by (by apply insert_desc_perm).
        rewrite Hperm. constructor; [lia | done].
    + exists (x :: y :: l). split; [done |]. split; [done |].
      intros Hdesc. constructor; [done |].
      apply StronglySorted_inv in Hdesc as [_ Hall].
      constructor; [lia |].
      eapply Forall_impl; [exact Hall |]. cbn. intros b Hb. lia.
Qed.

(** On integer keys the sort returns the input in descending order, equal
    keys in input order. *)
Lemma sorted_desc_int :
  ∀ l, int_keys key val l →
  ∃ l', sorted_desc key l = Ok l'
        ∧ l' ≡ₚ l
        ∧ descending val l'
        ∧ (∀ z, filter (λ y, val y = z) l' = filter (λ y, val y = z) l).
Proof.
  induction l as [| x l IH]; intros Hl; cbn [sorted_desc].
  - exists []. repeat split; (done || constructor).
  - apply Forall_cons in Hl as [Hx Hl].
    destruct (IH Hl) as (s & -> & Hperm & Hdesc & Hstable). cbn.
    assert (Hs : int_keys key val s) by (unfold int_keys; by rewrite Hperm).
    destruct (insert_desc_int x Hx s Hs) as (l' & Hins & Hst & Hsorted).
    exists l'. split; [done |]. split.
    { rewrite (insert_desc_perm _ _ _ Hins). by constructor. }
    split; [by apply Hsorted |].
    intros z. rewrite Hst, !filter_cons, Hstable. done.
Qed.
End SortedFacts.

(** The order of strings. *)
Lemma ascii_compare_gt_trans a b c :
  Ascii.compare a b = Gt → Ascii.compare b c = Gt → Ascii.compare a c = Gt.
Proof.
  unfold Ascii.compare. rewrite !N.compare_gt_iff. lia.
Qed.

Lemma string_compare_gt_trans :
  ∀ x y z, Stdlib.Strings.String.compare x y = Gt →
           Stdlib.Strings.String.compare y z = Gt →
           Stdlib.Strings.String.compare x z = Gt.
Proof.
  induction x as [| a x IH]; intros [| b y] [| c z]; cbn; try done.
  destruct (Ascii.compare a b) eqn:Hab; [| done |];
    destruct (Ascii.compare b c) eqn:Hbc; try done.
  - apply Ascii.compare_eq_iff in Hab, Hbc. subst.
    assert (Hcc : Ascii.compare c c = Eq).
    { unfold Ascii.compare. apply N.compare_refl. }
    rewrite Hcc. apply IH.
  - apply Ascii.compare_eq_iff in Hab. subst. by rewrite Hbc.
  - apply Ascii.compare_eq_iff in Hbc. subst. by rewrite Hab.
  - by rewrite (ascii_compare_gt_trans _ _ _ Hab Hbc).
Qed.

Lemma string_compare_refl x : Stdlib.Strings.String.compare x x = Eq.
Proof.
  induction x as [| a x IH]; cbn; [done |].
  assert (Haa : Ascii.compare a a = Eq).
  { unfold Ascii.compare. apply N.compare_refl. }
  by rewrite Haa.
Qed.

Lemma metric_lt_irrefl a : ¬ metric_lt a a.
Proof.
  destruct a as [| z | x]; cbn; [by intros [] | lia |].
  by rewrite string_compare_refl.
Qed.

Lemma metric_lt_asym a b : metric_lt a b → ¬ metric_lt b a.
Proof.
  destruct a as [| x | x], b as [| y | y]; cbn; try done; [lia |].
  intros Hlt. rewrite Stdlib.Strings.String.compare_antisym, Hlt. done.
Qed.

Lemma metric_lt_int_trans (a b c : scalar) :
  (∃ z, a = SInt z) → (∃ z, b = SInt z) → (∃ z, c = SInt z) →
  ¬ metric_lt a b → ¬ metric_lt b c → ¬ metric_lt a c.
Proof. intros [x ->] [y ->] [z ->]. cbn. lia. Qed.

Lemma metric_lt_str_trans (a b c : scalar) :
  (∃ x, a = SStr x) → (∃ x, b = SStr x) → (∃ x, c = SStr x) →
  ¬ metric_lt a b → ¬ metric_lt b c → ¬ metric_lt a c.
Proof.
  intros [x ->] [y ->] [z ->]. cbn. intros Hxy Hyz Hxz.
  destruct (Stdlib.Strings.String.compare x y) eqn:Exy; [| done |].
  - apply Stdlib.Strings.String.compare_eq_iff in Exy. by subst.
  - destruct (Stdlib.Strings.String.compare y z) eqn:Eyz; [| done |].
    + apply Stdlib.Strings.String.compare_eq_iff in Eyz. subst. congruence.
    + rewrite (string_compare_gt_trans _ _ _ Exy Eyz) in Hxz. done.
Qed.

Lemma py_lt_int (a b : scalar) :
  (∃ z, a = SInt z) → (∃ z, b = SInt z) →
  ∃ r, py_lt a b = Ok r ∧ (r = true ↔ metric_lt a b).
Proof.
  intros [x ->] [y ->]. eexists. split; [reflexivity |]. cbn.
  apply bool_decide_eq_true.
Qed.

Lemma py_lt_str (a b : scalar) :
  (∃ x, a = SStr x) → (∃ x, b = SStr x) →
  ∃ r, py_lt a b = Ok r ∧ (r = true ↔ metric_lt a b).
Proof.
  intros [x ->] [y ->]. eexists. split; [reflexivity |]. cbn.
  unfold Stdlib.Strings.String.ltb.
  by destruct (Stdlib.Strings.String.compare x y).
Qed.

(** Two values that [<] compares are two integers or two strings. *)
Lemma py_lt_kinds (a b : scalar) r :
  py_lt a b = Ok r →
  ((∃ z, a = SInt z) ∧ (∃ z, b = SInt z))
  ∨ ((∃ x, a = SStr x) ∧ (∃ x, b = SStr x)).
Proof.
  destruct a as [| x | x], b as [| y | y]; cbn; try done; intros _;
    [left | right]; split; by eexists.
Qed.

(** Sorting keys of one kind [K], on which [<] is the order of the
    metrics.  [key] is the key function of the program, [spec_key] the
    metric it stands for. *)
Section RankedFacts.
Context {A : Type} (key spec_key : A → scalar).
Hypothesis key_spec : ∀ a, key a = spec_key a.
Context (K : scalar → Prop).
Hypothesis K_lt :
  ∀ a b, K a → K b → ∃ r, py_lt a b = Ok r ∧ (r = true ↔ metric_lt a b).
Hypothesis K_trans :
  ∀ a b c, K a → K b → K c →
           ¬ metric_lt a b → ¬ metric_lt b c → ¬ metric_lt a c.

Local Abbreviation not_before :=
  (λ a b : A, ¬ metric_lt (spec_key a) (spec_key b)).

Lemma insert_desc_kind x :
  K (spec_key x) →
  ∀ l, Forall (λ y, K (spec_key y)) l →
  ∃ l', insert_desc key x l = Ok l'
        ∧ (∀ v, filter (λ y, spec_key y = v) l'
                = filter (λ y, spec_key y = v) (x :: l))
        ∧ (StronglySorted not_before l → StronglySorted not_before l').
Proof.
  intros Hx. induction l as [| y l IH]; intros Hl; cbn [insert_desc].
  - exists [x]. split; [done |]. split; [done |].
    intros _. by repeat constructor.
  - apply Forall_cons in Hl as [Hy Hl]. rewrite !key_spec.
    destruct (K_lt _ _ Hx Hy) as (r & -> & Hr). cbn. destruct r.
    + assert (Hlt : metric_lt (spec_key x) (spec_key y)) by (by apply Hr).
      destruct (IH Hl) as (l0 & Hins & Hstable & Hsorted). rewrite Hins. cbn.
      exists (y :: l0). split; [done |]. split.
      * intros v. rewrite !filter_cons, Hstable, filter_cons.
        destruct (decide (spec_key y = v)) as [Hyv |],
                 (decide (spec_key x = v)) as [Hxv |]; try done.
        rewrite Hxv, <- Hyv in Hlt. by apply metric_lt_irrefl in Hlt.
      * intros Hdesc. apply StronglySorted_inv in Hdesc as [Hdesc Hall].
        constructor; [by apply Hsorted |].
        assert (Hperm : l0 ≡ₚ x :: l) by (by apply insert_desc_perm in Hins).
        rewrite Hperm. constructor; [by apply metric_lt_asym | done].
    + assert (Hnlt : ¬ metric_lt (spec_key x) (spec_key y)).
      { intros Hlt. by apply Hr in Hlt. }
      exists (x :: y :: l). split; [done |]. split; [done |].
      intros Hdesc. constructor; [done |].
      apply StronglySorted_inv in Hdesc as [_ Hall].
      constructor; [done |].
      apply Forall_forall. intros z Hz.
      apply (K_trans _ (spec_key y) _ Hx Hy); [| done |].
      * exact (proj1 (Forall_forall _ _) Hl z Hz).
      * exact (proj1 (Forall_forall _ _) Hall z Hz).
Qed.

Lemma sorted_desc_kind :
  ∀ l, Forall (λ y, K (spec_key y)) l →
  ∃ l', sorted_desc key l = Ok l'
        ∧ l' ≡ₚ l
        ∧ StronglySorted not_before l'
        ∧ (∀ v, filter (λ y, spec_key y = v) l'
                = filter (λ y, spec_key y = v) l).
Proof.
  induction l as [| x l IH]; intros Hl; cbn [sorted_desc].
  - exists []. repeat split; (done || constructor).
  - apply Forall_cons in Hl as [Hx Hl].
    destruct (IH Hl) as (s & -> & Hperm & Hdesc & Hstable). cbn.
    assert (Hs : Forall (λ y, K (spec_key y)) s) by (by rewrite Hperm).
    destruct (insert_desc_kind x Hx s Hs) as (l' & Hins & Hst & Hsorted).
    exists l'. split; [done |]. split.
    { rewrite (insert_desc_perm _ _ _ _ Hins). by constructor. }
    split; [by apply Hsorted |].
    intros v. rewrite Hst, !filter_cons, Hstable. done.
Qed.
End RankedFacts.

(** A sort of two or more entries returns only when all keys are integers
    or all are strings. *)
Lemma sorted_desc_kinds {A : Type} (key : A → scalar) :
  ∀ l sd, sorted_desc key l = Ok sd →
  (length l ≤ 1)%nat
  ∨ Forall (λ y, ∃ z, key y = SInt z) l
  ∨ Forall (λ y, ∃ x, key y = SStr x) l.
Proof.
  induction l as [| x l IH]; intros sd; cbn [sorted_desc]; [left; cbn; lia |].
  destruct (sorted_desc key l) as [s |] eqn:Hs; cbn; [| done].
  intros Hins. pose proof (sorted_desc_perm _ _ _ Hs) as Hperm.
  destruct s as [| y s].
  { apply Permutation_nil_l in Hperm. subst l. left. cbn. lia. }
  assert (Hy : y ∈ l) by (rewrite <- Hperm; left).
  cbn [insert_desc] in Hins.
  destruct (py_lt (key x) (key y)) as [r |] eqn:Hlt; [| done].
  right.
  destruct (py_lt_kinds _ _ _ Hlt) as [[Hx Hyk] | [Hx Hyk]],
           (IH _ eq_refl) as [Hlen | [Hint | Hstr]].
  - left. destruct l as [| y' [| ? ?]]; [done | | cbn in Hlen; lia].
    apply list_elem_of_singleton in Hy as <-. by repeat constructor.
  - left. by constructor.
  - destruct (proj1 (Forall_forall _ _) Hstr y Hy) as [? Hy'].
    destruct Hyk as [? Hy'']. congruence.
  - right. destruct l as [| y' [| ? ?]]; [done | | cbn in Hlen; lia].
    apply list_elem_of_singleton in Hy as <-. by repeat constructor.
  - destruct (proj1 (Forall_forall _ _) Hint y Hy) as [? Hy'].
    destruct Hyk as [? Hy'']. congruence.
  - right. by constructor.
Qed.

(** ** The ranking request *)

Lemma viewers_key_int (s : pydict) :
  integer_or_absent s → viewers_key s = SInt (viewers s).
Proof.
  unfold integer_or_absent, viewers, viewers_key.
  by destruct (dict_get s "average_viewers") as [[] |].
Qed.

(** The sort key of the program is the metric. *)
Lemma viewers_key_metric (s : pydict) : viewers_key s = metric s.
Proof.
  unfold viewers_key, metric. by destruct (dict_get s "average_viewers").
Qed.

(** Comparable metrics sort, into the ranked response. *)
Lemma comparable_sorts (data : list pydict) :
  comparable data →
  ∃ sorted_data,
    sorted_desc viewers_key data = Ok sorted_data ∧ ranked data sorted_data.
Proof.
  intros [Hlen | [Hint | Hstr]].
  - destruct data as [| s [| ? ?]]; [| | cbn in Hlen; lia].
    + exists []. split; [done |]. split; [done |]. split; [constructor | done].
    + exists [s]. split; [done |]. split; [done |].
      split; [by repeat constructor | done].
  - destruct (sorted_desc_kind viewers_key metric viewers_key_metric
                (λ a, ∃ z, a = SInt z) py_lt_int metric_lt_int_trans data Hint)
      as (sd & Hsort & Hperm & Hdesc & Hstable).
    by exists sd.
  - destruct (sorted_desc_kind viewers_key metric viewers_key_metric
                (λ a, ∃ x, a = SStr x) py_lt_str metric_lt_str_trans data Hstr)
      as (sd & Hsort & Hperm & Hdesc & Hstable).
    by exists sd.
Qed.

(** Whenever the sort returns, it returns the ranked response. *)
Lemma sorted_desc_ranked (data sorted_data : list pydict) :
  sorted_desc viewers_key data = Ok sorted_data → ranked data sorted_data.
Proof.
  intros Hsort.
  assert (Hcomp : comparable data).
  { destruct (sorted_desc_kinds _ _ _ Hsort) as [Hlen | [Hint | Hstr]].
    - by left.
    - right. left. eapply Forall_impl; [exact Hint |]. cbn.
      intros s [z Hz]. exists z. by rewrite <- viewers_key_metric.
    - right. right. eapply Forall_impl; [exact Hstr |]. cbn.
      intros s [x Hx]. exists x. by rewrite <- viewers_key_metric. }
  destruct (comparable_sorts _ Hcomp) as (sd & Hsort' & Hranked).
  congruence.
Qed.

Lemma subscript_Some (d : pydict) k v : dict_get d k = Some v → subscript d k = Ok v.
Proof. unfold subscript. by intros ->. Qed.

Lemma subscript_None (d : pydict) k :
  dict_get d k = None → subscript d k = Raise (KeyError k).
Proof. unfold subscript. by intros ->. Qed.

Lemma comprehension_names_ok (l : list pydict) :
  Forall (λ s, is_Some (dict_get s "channel_name")) l →
  ∃ names,
    comprehension (λ s, subscript s "channel_name") l = Ok names
    ∧ Forall2 (λ s n, dict_get s "channel_name" = Some n) l names.
Proof.
  induction 1 as [| s l [n Hn] _ (names & Hc & Hall)]; cbn [comprehension].
  - exists []. by split.
  - exists (n :: names). rewrite (subscript_Some _ _ _ Hn), Hc. cbn.
    split; [done |]. by constructor.
Qed.

Lemma comprehension_names_inv (l : list pydict) :
  ∀ names, comprehension (λ s, subscript s "channel_name") l = Ok names →
           Forall2 (λ s n, dict_get s "channel_name" = Some n) l names.
Proof.
  induction l as [| s l IH]; intros names; cbn [comprehension].
  - intros [= <-]. constructor.
  - destruct (dict_get s "channel_name") as [n |] eqn:Hn;
      [rewrite (subscript_Some _ _ _ Hn) | rewrite (subscript_None _ _ Hn)];
      cbn; [| done].
    destruct (comprehension _ l) as [ns |]; cbn; [| done].
    intros [= <-]. constructor; [done | by apply IH].
Qed.

Lemma comprehension_names_raise (l : list pydict) s :
  s ∈ l → dict_get s "channel_name" = None →
  comprehension (λ s, subscript s "channel_name") l
  = Raise (KeyError "channel_name").
Proof.
  intros Hin Hnone. induction l as [| s0 l IH]; [by apply elem_of_nil in Hin |].
  cbn [comprehension].
  destruct (dict_get s0 "channel_name") as [n |] eqn:Hs0;
    [rewrite (subscript_Some _ _ _ Hs0) | rewrite (subscript_None _ _ Hs0)];
    cbn; [| done].
  apply elem_of_cons in Hin as [-> | Hin]; [congruence |].
  by rewrite (IH Hin).
Qed.

Lemma scrape_failed_eq (w : world) tr ss hd cm se :
  status_code (ranking_api w ranking_url) ≠ 200 →
  scrape w
    {| trace := tr; streamers := ss; history_data := hd; committed := cm;
       session := se |}
  = (Ok [],
     {| trace :=
          tr ++ [Log INFO
                   "Requesting Twitch streamers (limit: 20, sorted by average_viewers)..." [];
                 HttpGet ranking_url;
                 Log ERROR "Failed to fetch streamers: {} {}"
                   [AInt (status_code (ranking_api w ranking_url));
                    AStr (text (ranking_api w ranking_url))]];
        streamers := []; history_data := hd; committed := cm; session := se |}).
Proof.
  intros Hstatus. unfold scrape. cbn zeta.
  rewrite (bool_decide_eq_false_2 _ Hstatus).
  step. step. step. step. unfold gets. fields. by rewrite <- !app_assoc.
Qed.

Lemma scrape_sort_raises (w : world) tr ss hd cm se e :
  status_code (ranking_api w ranking_url) = 200 →
  sorted_desc viewers_key (default [] (json_data (ranking_api w ranking_url)))
  = Raise e →
  scrape w
    {| trace := tr; streamers := ss; history_data := hd; committed := cm;
       session := se |}
  = (Raise e,
     {| trace :=
          tr ++ [Log INFO
                   "Requesting Twitch streamers (limit: 20, sorted by average_viewers)..." [];
                 HttpGet ranking_url];
        streamers := ss; history_data := hd; committed := cm; session := se |}).
Proof.
  intros Hstatus Hsort. unfold scrape. cbn zeta.
  rewrite (bool_decide_eq_true_2 _ Hstatus), Hsort.
  step. step. step. erewrite bind_raise by reflexivity.
  by rewrite <- !app_assoc.
Qed.

Lemma scrape_names_raise (w : world) tr ss hd cm se sorted_data e :
  status_code (ranking_api w ranking_url) = 200 →
  sorted_desc viewers_key (default [] (json_data (ranking_api w ranking_url)))
  = Ok sorted_data →
  comprehension (λ s, subscript s "channel_name") (take 20 sorted_data)
  = Raise e →
  scrape w
    {| trace := tr; streamers := ss; history_data := hd; committed := cm;
       session := se |}
  = (Raise e,
     {| trace :=
          tr ++ [Log INFO
                   "Requesting Twitch streamers (limit: 20, sorted by average_viewers)..." [];
                 HttpGet ranking_url];
        streamers := ss; history_data := hd; committed := cm; session := se |}).
Proof.
  intros Hstatus Hsort Hnames. unfold scrape. cbn zeta.
  rewrite (bool_decide_eq_true_2 _ Hstatus), Hsort.
  step. step. step. erewrite bind_raise.
  2: { step. rewrite Hnames. reflexivity. }
  by rewrite <- !app_assoc.
Qed.

Lemma scrape_ok_eq (w : world) tr ss hd cm se sorted_data names :
  status_code (ranking_api w ranking_url) = 200 →
  sorted_desc viewers_key (default [] (json_data (ranking_api w ranking_url)))
  = Ok sorted_data →
  comprehension (λ s, subscript s "channel_name") (take 20 sorted_data)
  = Ok names →
  scrape w
    {| trace := tr; streamers := ss; history_data := hd; committed := cm;
       session := se |}
  = (Ok names,
     {| trace :=
          tr ++ [Log INFO
                   "Requesting Twitch streamers (limit: 20, sorted by average_viewers)..." [];
                 HttpGet ranking_url;
                 Log INFO "Found {} streamers (top 20 by average_viewers)."
                   [AInt (Z.of_nat (length names))]];
        streamers := names; history_data := hd; committed := cm;
        session := se |}).
Proof.
  intros Hstatus Hsort Hnames. unfold scrape. cbn zeta.
  rewrite (bool_decide_eq_true_2 _ Hstatus), Hsort.
  step. step. step. erewrite bind_ok.
  2: { step. rewrite Hnames. step. step. step. reflexivity. }
  unfold gets. fields. by rewrite <- !app_assoc.
Qed.

Lemma scrape_frame (w : world) tr ss hd cm se res st1 :
  scrape w
    {| trace := tr; streamers := ss; history_data := hd; committed := cm;
       session := se |} = (res, st1) →
  history_data st1 = hd ∧ committed st1 = cm ∧ session st1 = se
  ∧ (∀ l, res = Ok l → streamers st1 = l)
  ∧ ∃ evs, trace st1 = tr ++ evs
           ∧ Forall (λ e, is_db e = false) evs
           ∧ filter (λ e, is_http e = true) evs = [HttpGet ranking_url].
Proof.
  destruct (decide (status_code (ranking_api w ranking_url) = 200))
    as [Hstatus | Hstatus].
  - destruct (sorted_desc viewers_key
                (default [] (json_data (ranking_api w ranking_url))))
      as [sorted_data | e] eqn:Hsort.
    + destruct (comprehension (λ s, subscript s "channel_name")
                  (take 20 sorted_data)) as [names | e] eqn:Hnames.
      * rewrite (scrape_ok_eq _ _ _ _ _ _ _ _ Hstatus Hsort Hnames).
        intros [= <- <-]. cbn. repeat split; [congruence |].
        eexists. split; [reflexivity |]. split; [by repeat constructor | done].
      * rewrite (scrape_names_raise _ _ _ _ _ _ _ _ Hstatus Hsort Hnames).
        intros [= <- <-]. cbn. repeat split; [congruence |].
        eexists. split; [reflexivity |]. split; [by repeat constructor | done].
    + rewrite (scrape_sort_raises _ _ _ _ _ _ _ Hstatus Hsort).
      intros [= <- <-]. cbn. repeat split; [congruence |].
      eexists. split; [reflexivity |]. split; [by repeat constructor | done].
  - rewrite (scrape_failed_eq _ _ _ _ _ _ Hstatus).
    intros [= <- <-]. cbn. repeat split; [congruence |].
    eexists. split; [reflexivity |]. split; [by repeat constructor | done].
Qed.

(** ** Normalization *)

Lemma format_records_lines (records : list pydict) :
  format_records records = map record_line records.
Proof. reflexivity. Qed.

Section DictElems.
Context {K V : Type} `{EqDecision K}.

Lemma dict_set_elem (d : dict K V) k v k' v' :
  (k', v') ∈ dict_set d k v → (k', v') ∈ d ∨ (k' = k ∧ v' = v).
Proof.
  induction d as [| [k0 v0] d IH]; cbn.
  - intros [[= -> ->] | []%elem_of_nil]%elem_of_cons. by right.
  - destruct (decide (k0 = k)) as [-> | Hne].
    + intros [[= -> ->] | Hin]%elem_of_cons; [by right |]. left. by right.
    + intros [[= -> ->] | Hin]%elem_of_cons; [left; left |].
      destruct (IH Hin) as [Hd | Heq]; [left; by right | by right].
Qed.
End DictElems.

(** One step of the loop of [format]. *)
Lemma format_items_cons (w : world) k recs items acc :
  format_items w ((SStr k, recs) :: items) acc
  = format_items w items (dict_set acc (table_name w k) (map record_line recs)).
Proof.
  cbn [format_items py_lower]. rewrite <- lower_table_name. reflexivity.
Qed.

Lemma format_items_ok (w : world) (hd : dict scalar (list pydict)) :
  Forall (λ kv, ∃ k, kv.1 = SStr k) hd →
  ∀ acc, ∃ sl, format_items w hd acc = Ok sl.
Proof.
  induction 1 as [| [s recs] hd [k Hk] _ IH]; intros acc.
  - by exists acc.
  - cbn in Hk. subst s. rewrite format_items_cons. apply IH.
Qed.

(** Every table of the result comes from the accumulator or from a record
    sequence of the history map, under the table name of its key. *)
Lemma format_items_elem (w : world) (hd : dict scalar (list pydict)) :
  ∀ acc sl, format_items w hd acc = Ok sl →
  ∀ t lines, (t, lines) ∈ sl →
    (t, lines) ∈ acc
    ∨ ∃ k recs, (SStr k, recs) ∈ hd ∧ t = table_name w k
                ∧ lines = map record_line recs.
Proof.
  induction hd as [| [s recs] hd IH]; intros acc sl.
  - intros [= <-] t lines Hin. by left.
  - destruct s as [| z | k]; [done | done |]. rewrite format_items_cons.
    intros Hrest t lines Hin.
    destruct (IH _ _ Hrest t lines Hin) as [Hacc | (k' & recs' & Hk' & -> & ->)].
    + apply dict_set_elem in Hacc as [Hacc | [-> ->]]; [by left |].
      right. exists k, recs. split; [left | done].
    + right. exists k', recs'. split; [by right | done].
Qed.

Lemma format_items_other (w : world) (hd : dict scalar (list pydict)) t :
  (∀ k recs, (SStr k, recs) ∈ hd → table_name w k ≠ t) →
  ∀ acc sl, format_items w hd acc = Ok sl → dict_get sl t = dict_get acc t.
Proof.
  induction hd as [| [s recs] hd IH]; intros Hother acc sl.
  - by intros [= <-].
  - destruct s as [| z | k]; [done | done |]. rewrite format_items_cons.
    intros Hrest.
    rewrite (IH (λ k' recs' Hin, Hother k' recs' (list_elem_of_further _ _ _ Hin))
               _ _ Hrest).
    apply dict_get_set_ne. apply (Hother k recs). left.
Qed.

Lemma table_key_dec (w : world) (hd : dict scalar (list pydict)) t :
  (∃ k recs, (SStr k, recs) ∈ hd ∧ table_name w k = t)
  ∨ (∀ k recs, (SStr k, recs) ∈ hd → table_name w k ≠ t).
Proof.
  induction hd as [| [s recs] hd [(k & recs' & Hin & Ht) | Hnone]].
  - right. by intros k recs []%elem_of_nil.
  - left. exists k, recs'. split; [by right | done].
  - destruct s as [| z | k].
    + right. intros k recs' [[=] | Hin]%elem_of_cons. by eapply Hnone.
    + right. intros k recs' [[=] | Hin]%elem_of_cons. by eapply Hnone.
    + destruct (decide (table_name w k = t)) as [Ht | Hne].
      * left. exists k, recs. split; [left | done].
      * right. intros k' recs' [[= -> ->] | Hin]%elem_of_cons; [done |].
        by eapply Hnone.
Qed.

(** When all keys that share a table name carry the same records, the table
    is bound to the tuples of these records. *)
Lemma format_items_lookup (w : world) (hd : dict scalar (list pydict)) t recs0 :
  (∀ k recs, (SStr k, recs) ∈ hd → table_name w k = t → recs = recs0) →
  ∀ acc sl, format_items w hd acc = Ok sl →
  (∃ k recs, (SStr k, recs) ∈ hd ∧ table_name w k = t) →
  dict_get sl t = Some (map record_line recs0).
Proof.
  induction hd as [| [s recs] hd IH]; intros Hsame acc sl.
  - intros _ (k & recs & []%elem_of_nil & _).
  - destruct s as [| z | k]; [done | done |]. rewrite format_items_cons.
    intros Hrest Hex.
    destruct (table_key_dec w hd t) as [Hlater | Hnone].
    + by apply (IH (λ k' recs' Hin, Hsame k' recs' (list_elem_of_further _ _ _ Hin))
                  _ _ Hrest).
    + rewrite (format_items_other w hd t Hnone _ _ Hrest).
      destruct Hex as (k' & recs' & [[= -> ->] | Hin]%elem_of_cons & Ht).
      * rewrite <- Ht. rewrite dict_get_set_eq.
        by rewrite (Hsame k recs (list_elem_of_here _ _) Ht).
      * by destruct (Hnone k' recs' Hin).
Qed.

(** The records of a key that no later key shadows are the table's. *)
Lemma format_items_last (w : world) (before after : dict scalar (list pydict))
    k recs :
  (∀ k' recs', (SStr k', recs') ∈ after → table_name w k' ≠ table_name w k) →
  ∀ acc sl, format_items w (before ++ (SStr k, recs) :: after) acc = Ok sl →
  dict_get sl (table_name w k) = Some (map record_line recs).
Proof.
  intros Hafter. induction before as [| [s recs0] before IH]; intros acc sl.
  - cbn [app]. rewrite format_items_cons. intros Hrest.
    rewrite (format_items_other w after _ Hafter _ _ Hrest).
    apply dict_get_set_eq.
  - cbn [app]. destruct s as [| z | k0]; [done | done |].
    rewrite format_items_cons. apply IH.
Qed.

(** A key that is not a string stops the loop of [format]. *)
Lemma format_items_non_string (w : world) (hd : dict scalar (list pydict)) :
  ¬ Forall (λ kv, ∃ k, kv.1 = SStr k) hd →
  ∀ acc, format_items w hd acc = Raise AttributeError.
Proof.
  induction hd as [| [s recs] hd IH]; intros Hkeys acc.
  - destruct Hkeys. constructor.
  - destruct s as [| z | k]; [done | done |].
    rewrite format_items_cons. apply IH. intros Hrest. apply Hkeys.
    constructor; [by exists k | done].
Qed.

Lemma record_line_passed (records : list pydict) :
  Forall2 passed_through records (map record_line records).
Proof.
  induction records as [| record records IH]; constructor; [| exact IH].
  unfold passed_through, record_line, get_or_none. cbn [fst snd].
  split; [by intros v -> |]. split; [by intros -> |].
  split; [by intros v -> |]. split; [by intros -> |].
  split; [by intros v -> | by intros ->].
Qed.

Lemma format_eq (w : world) hd sl tr ss hd0 cm se :
  format_items w hd [] = Ok sl →
  format w hd
    {| trace := tr; streamers := ss; history_data := hd0; committed := cm;
       session := se |}
  = (Ok sl,
     {| trace :=
          tr ++ [Log INFO
                   "Formatting history data for per-streamer table insertion..." []];
        streamers := ss; history_data := hd0; committed := cm; session := se |}).
Proof.
  intros Hitems. unfold format. rewrite Hitems. step. step. step. reflexivity.
Qed.

(** * The claims *)

(** ** Credentials *)

(** C6: when CLIENT_ID or TOKEN is absent from the environment, [main] logs
    one record at error level and returns; the run performs no HTTP request
    and no database call, and the stored catalog is untouched. *)
Theorem main_missing_credentials (w : world) (db : catalog) :
  getenv w "CLIENT_ID" = None ∨ getenv w "TOKEN" = None →
  ∃ st',
    main w (initial db) = (Ok (), st')
    ∧ trace st' =
        [Log ERROR "CLIENT_ID or TOKEN not found in environment. Exiting." []]
    ∧ Forall (λ e, is_http e = false ∧ is_db e = false) (trace st')
    ∧ committed st' = db
    ∧ session st' = None.
Proof.
  intros Habsent. unfold main.
  assert (Hfalsy : falsy (getenv w "CLIENT_ID") || falsy (getenv w "TOKEN") = true).
  { destruct Habsent as [-> | ->]; cbn; [reflexivity | apply orb_true_r]. }
  rewrite Hfalsy. eexists. split; [reflexivity |]. cbn.
  repeat split; try reflexivity. repeat constructor.
Qed.

Lemma main_missing_credentials_witness :
  ∃ st',
    main no_creds (initial ∅) = (Ok (), st')
    ∧ trace st' =
        [Log ERROR "CLIENT_ID or TOKEN not found in environment. Exiting." []]
    ∧ Forall (λ e, is_http e = false ∧ is_db e = false) (trace st')
    ∧ committed st' = ∅
    ∧ session st' = None.
Proof.
  apply (main_missing_credentials no_creds ∅). left. reflexivity.
Defined.

(** ** The ranking request *)

(** C7: when the ranking response's status is not 200, [scrape] returns the
    empty list without raising, after logging the failure at error level;
    [self.streamers] is empty and nothing else changes. *)
Theorem scrape_unavailable (w : world) (st : state) :
  status_code (ranking_api w ranking_url) ≠ 200 →
  ∃ st',
    scrape w st = (Ok [], st')
    ∧ streamers st' = []
    ∧ trace st' = trace st ++
        [Log INFO
           "Requesting Twitch streamers (limit: 20, sorted by average_viewers)..." [];
         HttpGet ranking_url;
         Log ERROR "Failed to fetch streamers: {} {}"
           [AInt (status_code (ranking_api w ranking_url));
            AStr (text (ranking_api w ranking_url))]]
    ∧ history_data st' = history_data st
    ∧ committed st' = committed st
    ∧ session st' = session st.
Proof.
  intros Hstatus. destruct st as [tr ss hd cm se].
  rewrite (scrape_failed_eq _ _ _ _ _ _ Hstatus).
  eexists. split; [reflexivity |]. cbn. done.
Qed.

Lemma scrape_unavailable_witness :
  ∃ st',
    scrape ranking_down (initial ∅) = (Ok [], st')
    ∧ streamers st' = []
    ∧ trace st' = trace (initial ∅) ++
        [Log INFO
           "Requesting Twitch streamers (limit: 20, sorted by average_viewers)..." [];
         HttpGet ranking_url;
         Log ERROR "Failed to fetch streamers: {} {}"
           [AInt (status_code (ranking_api ranking_down ranking_url));
            AStr (text (ranking_api ranking_down ranking_url))]]
    ∧ history_data st' = history_data (initial ∅)
    ∧ committed st' = committed (initial ∅)
    ∧ session st' = session (initial ∅).
Proof.
  apply (scrape_unavailable ranking_down (initial ∅)). cbn. lia.
Defined.




(** The spec's scenario: the ranking of [foo] (100) and [bar] (50). *)
Example scrape_scenario :
  (scrape two_streamers (initial ∅)).1 = Ok [SStr "foo"; SStr "bar"].
Proof. reflexivity. Qed.

(** C10: when a status-200 ranking response sorts and one of the first 20
    sorted entries lacks [channel_name], [scrape] raises [KeyError] and
    [self.streamers] keeps its value.  In the same call an entry without
    [average_viewers] is not rejected: its sort key is the integer 0, it is
    among the sorted entries, and with integer metrics the sorted entries
    descend by metric with 0 for the missing ones. *)
Theorem scrape_missing_channel_name (w : world) (st : state)
    (data sorted_data : list pydict) (s : pydict) :
  status_code (ranking_api w ranking_url) = 200 →
  default [] (json_data (ranking_api w ranking_url)) = data →
  sorted_desc viewers_key data = Ok sorted_data →
  s ∈ take 20 sorted_data →
  dict_get s "channel_name" = None →
  (scrape w st).1 = Raise (KeyError "channel_name")
  ∧ streamers (scrape w st).2 = streamers st
  ∧ sorted_data ≡ₚ data
  ∧ (∀ e, e ∈ data → dict_get e "average_viewers" = None →
       viewers_key e = SInt 0 ∧ viewers e = 0 ∧ e ∈ sorted_data)
  ∧ (Forall integer_or_absent data → descending viewers sorted_data).
Proof.
  intros Hstatus Hdata Hsort Hin Hnone. subst data.
  pose proof (comprehension_names_raise _ _ Hin Hnone) as Hraise.
  destruct st as [tr ss hd cm se].
  rewrite (scrape_names_raise _ _ _ _ _ _ _ _ Hstatus Hsort Hraise).
  cbn [fst snd streamers].
  pose proof (sorted_desc_perm _ _ _ Hsort) as Hperm.
  split; [done |]. split; [done |]. split; [done |]. split.
  - intros e He Habsent. unfold viewers, viewers_key. rewrite Habsent.
    split; [done |]. split; [done |]. by rewrite Hperm.
  - intros Hint.
    assert (Hkeys : int_keys viewers_key viewers
                      (default [] (json_data (ranking_api w ranking_url)))).
    { eapply Forall_impl; [exact Hint |]. apply viewers_key_int. }
    destruct (sorted_desc_int viewers_key viewers _ Hkeys)
      as (sorted' & Hsort' & _ & Hdesc & _).
    rewrite Hsort in Hsort'. by injection Hsort' as <-.
Qed.

Lemma scrape_missing_channel_name_witness :
  (scrape nameless_entry (initial ∅)).1 = Raise (KeyError "channel_name")
  ∧ streamers (scrape nameless_entry (initial ∅)).2 = streamers (initial ∅)
  ∧ [[("channel_name", SStr "foo"); ("average_viewers", SInt 100)];
     [("average_viewers", SInt 50)];
     [("channel_name", SStr "baz")]]
    ≡ₚ [[("channel_name", SStr "baz")];
        [("average_viewers", SInt 50)];
        [("channel_name", SStr "foo"); ("average_viewers", SInt 100)]]
  ∧ (∀ e, e ∈ [[("channel_name", SStr "baz")];
               [("average_viewers", SInt 50)];
               [("channel_name", SStr "foo"); ("average_viewers", SInt 100)]] →
       dict_get e "average_viewers" = None →
       viewers_key e = SInt 0 ∧ viewers e = 0
       ∧ e ∈ [[("channel_name", SStr "foo"); ("average_viewers", SInt 100)];
              [("average_viewers", SInt 50)];
              [("channel_name", SStr "baz")]])
  ∧ (Forall integer_or_absent
       [[("channel_name", SStr "baz")];
        [("average_viewers", SInt 50)];
        [("channel_name", SStr "foo"); ("average_viewers", SInt 100)]] →
     descending viewers
       [[("channel_name", SStr "foo"); ("average_viewers", SInt 100)];
        [("average_viewers", SInt 50)];
        [("channel_name", SStr "baz")]]).
Proof.
  apply (scrape_missing_channel_name nameless_entry (initial ∅)
           [[("channel_name", SStr "baz")];
            [("average_viewers", SInt 50)];
            [("channel_name", SStr "foo"); ("average_viewers", SInt 100)]]
           [[("channel_name", SStr "foo"); ("average_viewers", SInt 100)];
            [("average_viewers", SInt 50)];
            [("channel_name", SStr "baz")]]
           [("average_viewers", SInt 50)]).
  - reflexivity.
  - reflexivity.
  - reflexivity.
  - cbn. right. left.
  - reflexivity.
Defined.

(** ** Table names *)

Lemma lower_char_idemp c : lower_char (lower_char c) = lower_char c.
Proof. by destruct c as [[] [] [] [] [] [] [] []]. Qed.

Lemma lower_char_ascii c : is_ascii_char (lower_char c) = is_ascii_char c.
Proof. by destruct c as [[] [] [] [] [] [] [] []]. Qed.

Lemma lower_idemp k : lower_ascii (lower_ascii k) = lower_ascii k.
Proof. induction k as [| c k IH]; cbn; [done |]. by rewrite lower_char_idemp, IH. Qed.

Lemma lower_ascii_ascii k : is_ascii (lower_ascii k) = is_ascii k.
Proof.
  induction k as [| c k IH]; cbn [lower_ascii is_ascii]; [done |].
  by rewrite lower_char_ascii, IH.
Qed.

(** C5, as stated, fails beyond ASCII: the capitals [ΌΣΟΣ] and the small
    letters [όσοσ] differ only in letter case, but [str.lower] turns the
    final capital sigma into [ς], so the two keys get two table names and
    [database] creates two tables. *)
Lemma lowercase_final_sigma :
  is_ascii "ΌΣΟΣ" = false
  ∧ table_name two_streamers "ΌΣΟΣ" = "streamer_όσος"
  ∧ table_name two_streamers "όσοσ" = "streamer_όσοσ"
  ∧ table_name two_streamers "ΌΣΟΣ" ≠ table_name two_streamers "όσοσ"
  ∧ (database two_streamers [SStr "ΌΣΟΣ"; SStr "όσοσ"] (initial ∅)).1 = Ok ()
  ∧ committed (database two_streamers [SStr "ΌΣΟΣ"; SStr "όσοσ"] (initial ∅)).2
    = {["streamer_όσος" := []; "streamer_όσοσ" := []]}.
Proof.
  split; [reflexivity |]. split; [reflexivity |]. split; [reflexivity |].
  split; [by vm_compute |]. split; [reflexivity |].
  apply map_eq. intros t. vm_compute. reflexivity.
Qed.

(** C5, amended: the table name is the prefix [streamer_] applied to the
    lowercase form of the key, in [database] (the CREATE TABLE statements it
    executes, in every state) and in [format] (the keys of its result)
    alike.  For a key of ASCII characters the lowercase form that the
    program computes has the small letters of the alphabet for its capitals,
    the name of the lowercase form is the name of the key, and a key that
    differs from it only in letter case gets the same table name, so that
    in [format] the records of the later key replace those of the
    earlier. *)
Theorem table_name_derivation (w : world) (st : state) (k1 k2 : string)
    (recs1 recs2 : list pydict) :
  is_ascii k1 = true →
  same_up_to_case k1 k2 →
  table_name w k1 = table_name w k2
  ∧ py_lower w (SStr k1) = Ok (lowercase k1)
  ∧ table_name w (lowercase k1) = table_name w k1
  ∧ (∀ names, ∃ st',
       database w (SStr <$> names) st = (Ok (), st')
       ∧ filter (λ e, is_execute e = true) (trace st')
         = filter (λ e, is_execute e = true) (trace st)
             ++ map (λ k, DbExecute (CreateTableIfNotExists (table_name w k)))
                  names)
  ∧ (∀ k recs,
       format_items w [(SStr k, recs)] []
       = Ok [(table_name w k, map record_line recs)])
  ∧ format_items w [(SStr k1, recs1); (SStr k2, recs2)] []
    = Ok [(table_name w k1, map record_line recs2)].
Proof.
  intros Hascii Hcase.
  pose proof (lower_same_up_to_case _ _ Hcase) as Hlower.
  assert (Hascii2 : is_ascii k2 = true)
    by (by rewrite <- (same_up_to_case_ascii _ _ Hcase)).
  assert (Hsame : table_name w k1 = table_name w k2).
  { rewrite !table_name_ascii, <- !lower_ascii_lowercase by done.
    by rewrite Hlower. }
  split; [done |].
  split.
  { cbn [py_lower]. unfold lower. by rewrite Hascii, lower_ascii_lowercase. }
  split.
  { rewrite <- lower_ascii_lowercase.
    rewrite !table_name_ascii, <- !lower_ascii_lowercase;
      [by rewrite lower_idemp | done | by rewrite lower_ascii_ascii]. }
  split; [| split].
  - intros names. destruct st as [tr ss hd cm se].
    rewrite database_strings. eexists. split; [reflexivity |].
    cbn [trace]. rewrite !filter_app.
    assert (Hmap : filter (λ e, is_execute e = true)
                     (map (λ k, DbExecute (CreateTableIfNotExists (table_name w k)))
                        names)
                   = map (λ k, DbExecute (CreateTableIfNotExists (table_name w k)))
                       names).
    { induction names as [| k names IH]; [done |].
      cbn [map]. rewrite filter_cons_True by done. by rewrite IH. }
    rewrite Hmap. f_equal. apply app_nil_r.
  - intros k recs. by rewrite format_items_cons.
  - rewrite !format_items_cons. cbn [format_items dict_set].
    rewrite <- Hsame. rewrite decide_True by done. done.
Qed.

Lemma table_name_derivation_witness :
  table_name two_streamers "Foo" = table_name two_streamers "foo"
  ∧ py_lower two_streamers (SStr "Foo") = Ok (lowercase "Foo")
  ∧ table_name two_streamers (lowercase "Foo") = table_name two_streamers "Foo"
  ∧ (∀ names, ∃ st',
       database two_streamers (SStr <$> names) (initial ∅) = (Ok (), st')
       ∧ filter (λ e, is_execute e = true) (trace st')
         = filter (λ e, is_execute e = true) (trace (initial ∅))
             ++ map (λ k, DbExecute
                            (CreateTableIfNotExists (table_name two_streamers k)))
                  names)
  ∧ (∀ k recs,
       format_items two_streamers [(SStr k, recs)] []
       = Ok [(table_name two_streamers k, map record_line recs)])
  ∧ format_items two_streamers
      [(SStr "Foo", []); (SStr "foo", [[("date", SStr "7-days")]])] []
    = Ok [(table_name two_streamers "Foo",
           map record_line [[("date", SStr "7-days")]])].
Proof.
  apply (table_name_derivation two_streamers (initial ∅) "Foo" "foo" []
           [[("date", SStr "7-days")]]).
  - reflexivity.
  - constructor.
    + right. left. split; [unfold is_upper; vm_compute; lia | reflexivity].
    + repeat (constructor; [by left |]). constructor.
Defined.

(** Two distinct keys with one table, and a key with an accent. *)
Example table_name_collision :
  "Foo" ≠ "foo"
  ∧ table_name two_streamers "Foo" = "streamer_foo"
  ∧ table_name two_streamers "foo" = "streamer_foo"
  ∧ py_lower two_streamers (SStr "École") = Ok "école".
Proof. done. Qed.

(** ** Normalization *)


(** A record without [average_viewers] becomes a tuple with [None]. *)
Example format_missing_metric :
  format_items two_streamers
    [(SStr "foo", [[("date", SStr "7-days"); ("stream_days", SInt 5)]])] []
  = Ok [("streamer_foo", [(SStr "7-days", SNull, SInt 5)])].
Proof. reflexivity. Qed.

(** ** Appending *)

Lemma primary_key_foo_catalog : primary_key foo_catalog.
Proof.
  unfold foo_catalog.
  intros t rows [_ <-]%lookup_singleton_Some. constructor.
Qed.

Lemma primary_key_foo_week_stored : primary_key foo_week_stored.
Proof.
  unfold foo_week_stored.
  intros t rows [_ <-]%lookup_singleton_Some. cbn. apply NoDup_singleton.
Qed.

(** The stored value survives both appends. *)
Example append_keeps_prior_value :
  committed
    (append two_streamers [("streamer_foo", [(SStr "7-days", SInt 120, SInt 5)])]
       (append two_streamers
          [("streamer_foo", [(SStr "7-days", SInt 120, SInt 5)])]
          (initial foo_week_stored)).2).2 !! "streamer_foo"
  = Some [("7-days", Some 100, Some 4)].
Proof. vm_compute. reflexivity. Qed.

(** The defect behind C2 in general: an INSERT that raises is followed by a
    rollback of the whole transaction, so the catalog after the batch does
    not depend on the INSERTs that ran before it. *)
Lemma rollback_discards_earlier_inserts eng (base : catalog)
    (before after : list (string * line)) t l c :
  run_statement eng (InsertOnConflictDoNothing t l)
    (insert_all eng base before c) = None →
  insert_all eng base (before ++ (t, l) :: after) c
  = insert_all eng base after base.
Proof.
  intros Hraise. rewrite insert_all_app. cbn [insert_all fold_left].
  unfold insert_step at 2. cbn [fst snd]. fold (insert_all eng base before c).
  by rewrite Hraise.
Qed.

(** C2, evaluated: in a batch of three tuples for one table whose second
    tuple the engine rejects, the first tuple is inserted, the second raises
    and is logged, [conn.rollback()] runs, and the third is inserted: after
    the commit the table holds the third row only.  The first row, which
    alone would have been stored, is lost. *)
Theorem append_rollback_loses_earlier_rows :
  let st' := (append two_streamers overflowing_batch (initial foo_catalog)).2 in
  trace st' =
    [Log INFO "Appending data to each streamer's table in PostgreSQL..." [];
     DbConnect;
     DbExecute (InsertOnConflictDoNothing "streamer_foo"
                  (SStr "7-days", SInt 120, SInt 5));
     DbExecute (InsertOnConflictDoNothing "streamer_foo"
                  (SStr "last-month", SInt 3000000000, SInt 20));
     Log ERROR "Error inserting line {} into {}: {}"
       [ALine (SStr "last-month", SInt 3000000000, SInt 20);
        AStr "streamer_foo"; AExn DatabaseError];
     DbRollback;
     DbExecute (InsertOnConflictDoNothing "streamer_foo"
                  (SStr "last-year", SInt 90, SInt 200));
     DbCommit; DbClose;
     Log INFO "All data appended to streamer tables." []]
  ∧ committed st' !! "streamer_foo" = Some [("last-year", Some 90, Some 200)]
  ∧ rows_for (committed st') "streamer_foo" "7-days" = []
  ∧ committed
      (append two_streamers
         [("streamer_foo", [(SStr "7-days", SInt 120, SInt 5)])]
         (initial foo_catalog)).2 !! "streamer_foo"
    = Some [("7-days", Some 120, Some 5)].
Proof. vm_compute. done. Qed.

(** ** The run *)

Lemma main_with_credentials (w : world) (st : state) :
  falsy (getenv w "CLIENT_ID") = false →
  falsy (getenv w "TOKEN") = false →
  main w st =
  (init_streamers;;
   streamers ← scrape w;
   print "Streamers:" (AVals streamers);;
   history ← history w;
   database w streamers;;
   streamer_lines ← format w history;
   print "Formatted streamer lines:" (ATables streamer_lines);;
   append w streamer_lines) st.
Proof. intros Hid Htoken. unfold main. by rewrite Hid, Htoken. Qed.

Lemma bind_ok_inv {A B : Type} (m : M A) (f : A → M B) st b st' :
  (m ≫= f) st = (Ok b, st') →
  ∃ a st1, m st = (Ok a, st1) ∧ f a st1 = (Ok b, st').
Proof.
  unfold mbind, M_bind. destruct (m st) as [[a | e] st1]; [| done].
  intros Hf. by exists a, st1.
Qed.

(** A run that returns normally with the credentials present has gone
    through its last step. *)
Lemma main_returns_complete (w : world) (db : catalog) (st' : state) :
  main w (initial db) = (Ok (), st') →
  (falsy (getenv w "CLIENT_ID") || falsy (getenv w "TOKEN") = true
   ∧ trace st'
     = [Log ERROR "CLIENT_ID or TOKEN not found in environment. Exiting." []])
  ∨ (falsy (getenv w "CLIENT_ID") || falsy (getenv w "TOKEN") = false
     ∧ ∃ evs, trace st'
              = evs ++ [DbCommit; DbClose;
                        Log INFO "All data appended to streamer tables." []]).
Proof.
  unfold main.
  destruct (falsy (getenv w "CLIENT_ID") || falsy (getenv w "TOKEN")) eqn:Hcreds.
  - intros [= <-]. by left.
  - intros Hmain. right. split; [done |].
    apply bind_ok_inv in Hmain as (? & st1 & _ & Hmain).
    apply bind_ok_inv in Hmain as (names & st2 & _ & Hmain).
    apply bind_ok_inv in Hmain as (? & st3 & _ & Hmain).
    apply bind_ok_inv in Hmain as (hist & st4 & _ & Hmain).
    apply bind_ok_inv in Hmain as (? & st5 & _ & Hmain).
    apply bind_ok_inv in Hmain as (sl & st6 & _ & Hmain).
    apply bind_ok_inv in Hmain as (? & st7 & _ & Hmain).
    destruct st7 as [tr ss hd cm se]. rewrite append_eq in Hmain.
    injection Hmain as <-. cbn [trace].
    exists (tr ++ [Log INFO
                     "Appending data to each streamer's table in PostgreSQL..." [];
                   DbConnect] ++ insert_events w cm (batch sl) cm).
    by rewrite <- !app_assoc.
Qed.

(** C4, as stated, fails: with credentials present and a failed ranking
    request, [scrape] returns the empty list and the run goes on: [database]
    and [append] are called, each opens a connection and commits. *)
Lemma main_continues_after_empty_ranking :
  (scrape ranking_down (initial ∅)).1 = Ok []
  ∧ trace (main ranking_down (initial ∅)).2 =
      [Log INFO
         "Requesting Twitch streamers (limit: 20, sorted by average_viewers)..." [];
       HttpGet ranking_url;
       Log ERROR "Failed to fetch streamers: {} {}"
         [AInt 500; AStr "Internal Server Error"]]
      ++ empty_run_events
  ∧ ¬ Forall (λ e, is_db e = false) (trace (main ranking_down (initial ∅)).2).
Proof.
  split; [vm_compute; reflexivity |]. split; [vm_compute; reflexivity |].
  assert (Htrace : trace (main ranking_down (initial ∅)).2 =
            [Log INFO
               "Requesting Twitch streamers (limit: 20, sorted by average_viewers)..." [];
             HttpGet ranking_url;
             Log ERROR "Failed to fetch streamers: {} {}"
               [AInt 500; AStr "Internal Server Error"]]
            ++ empty_run_events) by (vm_compute; reflexivity).
  rewrite Htrace. intros Hnone. apply Forall_app in Hnone as [_ Hnone].
  unfold empty_run_events in Hnone.
  do 3 apply Forall_cons in Hnone as [_ Hnone].
  by apply Forall_cons in Hnone as [[=] _].
Qed.

(** C4, amended: when the ranking request yields no streamer, the run does
    not stop.  It goes through [history], [database], [format] and [append],
    which send no history request and execute no statement: each of the two
    database calls opens a connection, commits and closes, the catalog is
    unchanged, and the run returns after the last progress record.  The
    only early return of a run, in every world, is the check of the
    credentials: a run that returns normally has either found a credential
    missing and logged that one record, or has gone through [append] to its
    last record. *)
Theorem main_empty_ranking (w : world) (db : catalog) :
  falsy (getenv w "CLIENT_ID") = false →
  falsy (getenv w "TOKEN") = false →
  (scrape w (initial db)).1 = Ok [] →
  (∃ st',
     main w (initial db) = (Ok (), st')
     ∧ trace st' = trace (scrape w (initial db)).2 ++ empty_run_events
     ∧ filter (λ e, is_http e = true) (trace st') = [HttpGet ranking_url]
     ∧ Forall (λ e, is_execute e = false) (trace st')
     ∧ committed st' = db
     ∧ session st' = None)
  ∧ (∀ w' db' st'',
       main w' (initial db') = (Ok (), st'') →
       (falsy (getenv w' "CLIENT_ID") || falsy (getenv w' "TOKEN") = true
        ∧ trace st''
          = [Log ERROR "CLIENT_ID or TOKEN not found in environment. Exiting." []])
       ∨ (falsy (getenv w' "CLIENT_ID") || falsy (getenv w' "TOKEN") = false
          ∧ ∃ evs, trace st''
                   = evs ++ [DbCommit; DbClose;
                             Log INFO "All data appended to streamer tables." []])).
Proof.
  intros Hid Htoken Hempty. split; [| apply main_returns_complete].
  rewrite (main_with_credentials _ _ Hid Htoken). unfold initial in *.
  step.
  destruct (scrape w _) as [res st1] eqn:Hscrape.
  cbn [fst snd] in *. subst res.
  destruct (scrape_frame _ _ _ _ _ _ _ _ Hscrape)
    as (Hhd & Hcm & Hse & Hss & evs & Htr & Hnodb & Hhttp).
  specialize (Hss [] eq_refl).
  destruct st1 as [tr1 ss1 hd1 cm1 se1]. cbn in Hhd, Hcm, Hse, Hss, Htr.
  subst. erewrite bind_ok by exact Hscrape.
  step. unfold history. erewrite bind_ok.
  2: { step. step. step. reflexivity. }
  fields.
  erewrite bind_ok by exact (database_strings w [] _ _ _ _ _). fields.
  erewrite bind_ok by (by apply format_eq). fields.
  step. rewrite append_eq.
  eexists. split; [reflexivity |]. cbn [trace committed session].
  change (batch []) with (@nil (string * line)).
  cbn [insert_events insert_all resolved fold_left map fmap list_fmap].
  split. { rewrite <- !app_assoc. reflexivity. }
  split. { rewrite <- !app_assoc, filter_app, Hhttp. reflexivity. }
  split; [| done].
  rewrite <- !app_assoc. apply Forall_app. split.
  - eapply Forall_impl; [exact Hnodb |]. intros e He. by destruct e.
  - by repeat constructor.
Qed.

Lemma main_empty_ranking_witness :
  (∃ st',
     main ranking_down (initial ∅) = (Ok (), st')
     ∧ trace st' = trace (scrape ranking_down (initial ∅)).2 ++ empty_run_events
     ∧ filter (λ e, is_http e = true) (trace st') = [HttpGet ranking_url]
     ∧ Forall (λ e, is_execute e = false) (trace st')
     ∧ committed st' = ∅
     ∧ session st' = None)
  ∧ (∀ w' db' st'',
       main w' (initial db') = (Ok (), st'') →
       (falsy (getenv w' "CLIENT_ID") || falsy (getenv w' "TOKEN") = true
        ∧ trace st''
          = [Log ERROR "CLIENT_ID or TOKEN not found in environment. Exiting." []])
       ∨ (falsy (getenv w' "CLIENT_ID") || falsy (getenv w' "TOKEN") = false
          ∧ ∃ evs, trace st''
                   = evs ++ [DbCommit; DbClose;
                             Log INFO "All data appended to streamer tables." []])).
Proof.
  apply (main_empty_ranking ranking_down ∅); vm_compute; reflexivity.
Defined.

(** ** Collected records reach their tables *)

Lemma history_map_elem (w : world) (ss : list scalar) s recs :
  ∀ h, (s, recs) ∈ history_map w ss h →
       (s, recs) ∈ h ∨ (s ∈ ss ∧ recs = collected w s).
Proof.
  induction ss as [| s0 ss IH]; intros h; [by left |].
  rewrite history_map_cons. intros Hin.
  destruct (IH _ Hin) as [Hset | [Hss ->]].
  - apply dict_set_elem in Hset as [Hh | [-> ->]]; [by left |].
    right. split; [left | done].
  - right. split; [by right | done].
Qed.

Lemma fetched_collected (w : world) s p record :
  p ∈ time_periods → fetched w s p = [record] → record ∈ collected w s.
Proof.
  unfold time_periods, collected. intros Hp Hf.
  repeat (apply elem_of_cons in Hp as [-> | Hp]); [| | | by apply elem_of_nil in Hp];
    rewrite Hf; rewrite !elem_of_app, list_elem_of_singleton; auto.
Qed.

Lemma create_tables_keep (ts : list string) :
  ∀ (c : catalog) t, is_Some (c !! t) → is_Some (fold_left create_table ts c !! t).
Proof.
  induction ts as [| t0 ts IH]; intros c t Ht; [done |].
  cbn. apply IH. unfold create_table.
  destruct (c !! t0) eqn:Ht0; [done |].
  rewrite lookup_insert. case_decide; [by eexists | done].
Qed.

Lemma create_tables_exist (ts : list string) :
  ∀ (c : catalog) t, t ∈ ts → is_Some (fold_left create_table ts c !! t).
Proof.
  induction ts as [| t0 ts IH]; intros c t Hin; [by apply elem_of_nil in Hin |].
  cbn. apply elem_of_cons in Hin as [-> | Hin]; [| by apply IH].
  apply create_tables_keep. unfold create_table.
  destruct (c !! t0) eqn:Ht0; [by rewrite Ht0 |].
  rewrite lookup_insert_eq. by eexists.
Qed.

Lemma batch_elem (sl : dict string (list line)) t l :
  (t, l) ∈ batch sl ↔ ∃ lines, (t, lines) ∈ sl ∧ l ∈ lines.
Proof.
  unfold batch. induction sl as [| [t0 lines0] sl IH]; cbn [map concat].
  - split; [by intros []%elem_of_nil | by intros (? & []%elem_of_nil & _)].
  - rewrite elem_of_app, IH. split.
    + intros [Hhere | (lines & Hin & Hl)].
      * apply list_elem_of_fmap in Hhere as (l' & [= -> ->] & Hl').
        exists lines0. split; [left | done].
      * exists lines. split; [by right | done].
    + intros (lines & [[= -> ->] | Hin]%elem_of_cons & Hl).
      * left. by apply list_elem_of_fmap_2.
      * right. by exists lines.
Qed.

Lemma insert_events_elem (w : world) base (rows : list (string * line)) t l :
  ∀ c, DbExecute (InsertOnConflictDoNothing t l) ∈ insert_events w base rows c →
       (t, l) ∈ rows.
Proof.
  induction rows as [| [t0 l0] rows IH]; intros c; cbn [insert_events].
  - by intros []%elem_of_nil.
  - destruct (run_statement _ _ _) as [c' |].
    + intros [[= -> ->] | Hin]%elem_of_cons; [left | right; by eapply IH].
    + intros [[= -> ->] | Hin]%elem_of_cons; [left |].
      apply elem_of_cons in Hin as [[=] | Hin].
      apply elem_of_cons in Hin as [[=] | Hin].
      right. by eapply IH.
Qed.

(** An INSERT that does not raise keeps every table and every stored period,
    and leaves a row for its own period. *)
Lemma insert_step_success eng (base c : catalog) t l rows r :
  c !! t = Some rows → eng l = Some r →
  (∀ t', is_Some (c !! t') → is_Some (insert_step eng base c (t, l) !! t'))
  ∧ (∀ t' d, has_row c t' d → has_row (insert_step eng base c (t, l)) t' d)
  ∧ has_row (insert_step eng base c (t, l)) t (row_date r).
Proof.
  intros Ht Hl. rewrite (insert_step_stored _ _ _ _ _ _ _ Ht Hl).
  destruct (existsb _ rows) eqn:Hex.
  - split; [done |]. split; [done |].
    apply existsb_exists in Hex as (r' & Hin%list_elem_of_In & Hd%bool_decide_eq_true).
    by exists rows, r'.
  - split; [| split].
    + intros t'. rewrite lookup_insert. case_decide; [by eexists | done].
    + intros t' d (rows' & r' & Ht' & Hin & Hd). unfold has_row.
      rewrite lookup_insert. case_decide as Heq.
      * subst t'. rewrite Ht in Ht'. injection Ht' as <-.
        exists (rows ++ [r]), r'. rewrite elem_of_app. auto.
      * by exists rows', r'.
    + exists (rows ++ [r]), r. rewrite lookup_insert_eq, elem_of_app, list_elem_of_singleton.
      auto.
Qed.

(** When no INSERT of the batch raises, every tuple of the batch has a
    stored row for its period afterwards. *)
Lemma insert_all_success eng (base : catalog) (rows : list (string * line)) :
  ∀ c,
    (∀ t l, (t, l) ∈ rows → is_Some (c !! t) ∧ is_Some (eng l)) →
    (∀ t, is_Some (c !! t) → is_Some (insert_all eng base rows c !! t))
    ∧ (∀ t d, has_row c t d → has_row (insert_all eng base rows c) t d)
    ∧ (∀ t l, (t, l) ∈ rows →
         ∃ r, eng l = Some r ∧ has_row (insert_all eng base rows c) t (row_date r)).
Proof.
  induction rows as [| [t0 l0] rows IH]; intros c Hok.
  - split; [done |]. split; [done |]. by intros t l []%elem_of_nil.
  - destruct (Hok t0 l0 (list_elem_of_here _ _)) as [[rows0 Ht0] [r0 Hl0]].
    destruct (insert_step_success eng base c t0 l0 rows0 r0 Ht0 Hl0)
      as (Hkeep & Hrows & Hnew).
    destruct (IH (insert_step eng base c (t0, l0))) as (Hkeep' & Hrows' & Hall').
    { intros t l Hin. destruct (Hok t l (list_elem_of_further _ _ _ Hin)).
      split; [by apply Hkeep | done]. }
    cbn [insert_all fold_left] in *.
    split; [by intros t Ht; apply Hkeep', Hkeep |].
    split; [by intros t d Hr; apply Hrows', Hrows |].
    intros t l [[= -> ->] | Hin]%elem_of_cons.
    + exists r0. split; [done |]. by apply Hrows'.
    + by apply Hall'.
Qed.

Lemma NoDup_fmap_eq {A B : Type} (f : A → B) (l : list A) x y :
  NoDup (f <$> l) → x ∈ l → y ∈ l → f x = f y → x = y.
Proof.
  induction l as [| a l IH]; [by intros _ []%elem_of_nil |].
  rewrite fmap_cons, NoDup_cons. intros [Hnotin Hnd].
  intros [-> | Hx]%elem_of_cons [-> | Hy]%elem_of_cons Hf; [done | | | by apply IH].
  - destruct Hnotin. rewrite Hf. by apply list_elem_of_fmap_2.
  - destruct Hnotin. rewrite <- Hf. by apply list_elem_of_fmap_2.
Qed.

(** A complete run on a ranking of string names: the catalog after the run
    is the catalog after the CREATE TABLE statements, followed by the
    INSERTs of the normalized history map in one transaction. *)
Lemma main_run (w : world) (db : catalog) (names : list string) :
  falsy (getenv w "CLIENT_ID") = false →
  falsy (getenv w "TOKEN") = false →
  (scrape w (initial db)).1 = Ok (SStr <$> names) →
  ∃ sl pre post st',
    format_items w (history_map w (SStr <$> names) []) [] = Ok sl
    ∧ main w (initial db) = (Ok (), st')
    ∧ history_data st' = history_map w (SStr <$> names) []
    ∧ committed st'
      = insert_all (engine w)
          (fold_left create_table (table_of w <$> names) db)
          (resolved w (batch sl))
          (fold_left create_table (table_of w <$> names) db)
    ∧ trace st'
      = pre ++ insert_events w
                 (fold_left create_table (table_of w <$> names) db) (batch sl)
                 (fold_left create_table (table_of w <$> names) db)
            ++ post
    ∧ Forall (λ e, is_insert e = false) pre
    ∧ Forall (λ e, is_insert e = false) post.
Proof.
  intros Hid Htoken Hnames.
  assert (Hkeys : Forall (λ kv : scalar * list pydict, ∃ k, kv.1 = SStr k)
                    (history_map w (SStr <$> names) [])).
  { apply Forall_forall. intros [s recs] Hin.
    apply history_map_elem in Hin as [[]%elem_of_nil | [Hs _]].
    apply list_elem_of_fmap in Hs as (k & -> & _). by exists k. }
  destruct (format_items_ok w _ Hkeys []) as [sl Hsl].
  rewrite (main_with_credentials _ _ Hid Htoken). unfold initial in *.
  step.
  destruct (scrape w _) as [res st1] eqn:Hscrape.
  cbn [fst snd] in *. subst res.
  destruct (scrape_frame _ _ _ _ _ _ _ _ Hscrape)
    as (Hhd & Hcm & Hse & Hss & evs1 & Htr & Hnodb1 & _).
  specialize (Hss _ eq_refl).
  destruct st1 as [tr1 ss1 hd1 cm1 se1]. cbn in Hhd, Hcm, Hse, Hss, Htr.
  subst. erewrite bind_ok by exact Hscrape.
  step.
  destruct (history_eq w (([] ++ evs1) ++ [Print "Streamers:" (AVals (SStr <$> names))])
              (SStr <$> names) [] db None) as (evs2 & Hhistory & Hnodb2).
  erewrite bind_ok by exact Hhistory.
  erewrite bind_ok by exact (database_strings w names _ _ _ _ _). fields.
  erewrite bind_ok by (apply format_eq; exact Hsl). fields.
  step. rewrite append_eq.
  exists sl.
  exists (evs1
          ++ [Print "Streamers:" (AVals (SStr <$> names))]
          ++ evs2
          ++ [Log INFO "Checking/creating PostgreSQL tables for each streamer..." [];
              DbConnect]
          ++ map (λ k, DbExecute (CreateTableIfNotExists (table_name w k))) names
          ++ [DbCommit; DbClose; Log INFO "All streamer tables ready." [];
              Log INFO
                "Formatting history data for per-streamer table insertion..." [];
              Print "Formatted streamer lines:" (ATables sl);
              Log INFO "Appending data to each streamer's table in PostgreSQL..." [];
              DbConnect]).
  exists [DbCommit; DbClose; Log INFO "All data appended to streamer tables." []].
  eexists.
  split; [done |]. split; [reflexivity |]. cbn [history_data committed trace].
  split; [done |]. split; [done |].
  split.
  { rewrite <- !app_assoc. reflexivity. }
  split; [| by repeat constructor].
  apply Forall_app. split.
  { eapply Forall_impl; [exact Hnodb1 |]. intros e He. by destruct e. }
  apply Forall_cons. split; [done |].
  apply Forall_app. split.
  { eapply Forall_impl; [exact Hnodb2 |]. intros e He. by destruct e. }
  apply Forall_app. split; [by repeat constructor |].
  apply Forall_app. split; [| by repeat constructor].
  apply Forall_forall. by intros e (k & -> & _)%list_elem_of_fmap.
Qed.

(** The spec's scenario: [foo]'s 7-day record is stored in [streamer_foo],
    and the failed requests leave the other tables empty. *)
Example main_scenario :
  map_to_list (committed (main two_streamers (initial ∅)).2)
  ≡ₚ [("streamer_foo", [("7-days", Some 120, Some 5)]); ("streamer_bar", [])].
Proof. vm_compute. apply Permutation_refl || apply Permutation_swap. Qed.


(** ** Batches and transactions *)

Lemma batch_app (sl1 sl2 : dict string (list line)) :
  batch (sl1 ++ sl2) = batch sl1 ++ batch sl2.
Proof. unfold batch. by rewrite map_app, concat_app. Qed.

Lemma batch_cons t lines (sl : dict string (list line)) :
  batch ((t, lines) :: sl) = map (pair t) lines ++ batch sl.
Proof. reflexivity. Qed.

Lemma extends_refl (c : catalog) : extends c c.
Proof. intros t rows Ht. exists []. by rewrite app_nil_r. Qed.

Lemma insert_step_extends eng (base c : catalog) tl :
  extends base c → extends base (insert_step eng base c tl).
Proof.
  intros Hext. destruct tl as [t l]. unfold insert_step, run_statement.
  cbn [fst snd]. destruct (c !! t) as [rows |] eqn:Ht; [| apply extends_refl].
  destruct (eng l) as [r |]; [| apply extends_refl].
  destruct (existsb _ rows); cbn; [done |].
  intros t' rows' Hbase. destruct (Hext t' rows' Hbase) as [more Hmore].
  rewrite lookup_insert. case_decide as Heq; [| by exists more].
  subst t'. rewrite Ht in Hmore. injection Hmore as ->.
  exists (more ++ [r]). by rewrite app_assoc.
Qed.

Lemma insert_all_extends eng (base : catalog) rows :
  ∀ c, extends base c → extends base (insert_all eng base rows c).
Proof.
  induction rows as [| tl rows IH]; intros c Hext; [done |].
  cbn. by apply IH, insert_step_extends.
Qed.


Lemma same_tables_refl (c : catalog) : same_tables c c.
Proof. by intros t. Qed.

Lemma insert_step_same_tables eng (base c : catalog) tl :
  same_tables base c → same_tables base (insert_step eng base c tl).
Proof.
  intros Hsame. destruct tl as [t l]. unfold insert_step, run_statement.
  cbn [fst snd]. destruct (c !! t) as [rows |] eqn:Ht; [| apply same_tables_refl].
  destruct (eng l) as [r |]; [| apply same_tables_refl].
  destruct (existsb _ rows); cbn; [done |].
  intros t'. rewrite lookup_insert. case_decide as Heq; [| apply Hsame].
  subst t'. split; [| by eexists]. intros _. apply Hsame. by rewrite Ht.
Qed.

Lemma insert_all_same_tables eng (base : catalog) rows :
  ∀ c, same_tables base c → same_tables base (insert_all eng base rows c).
Proof.
  induction rows as [| tl rows IH]; intros c Hsame; [done |].
  cbn. by apply IH, insert_step_same_tables.
Qed.

(** A tuple that cannot be inserted raises in every transaction state. *)
Lemma not_insertable_raises eng (base c : catalog) tl :
  same_tables base c → ¬ insertable eng base tl →
  run_statement eng (InsertOnConflictDoNothing tl.1 tl.2) c = None.
Proof.
  intros Hsame Hnot. unfold run_statement.
  destruct (c !! tl.1) as [rows |] eqn:Ht; [| done].
  destruct (eng tl.2) as [r |] eqn:Hl; [| done].
  destruct Hnot. split; [| by eexists]. apply Hsame. by rewrite Ht.
Qed.

(** A tuple whose period is stored is skipped. *)
Lemma stored_skipped eng (base c : catalog) tl :
  stored eng c tl → insert_step eng base c tl = c.
Proof.
  intros (r & Hl & rows & r' & Ht & Hin & Hd). destruct tl as [t l].
  cbn [fst snd] in *. rewrite (insert_step_stored _ _ _ _ _ _ _ Ht Hl).
  assert (Hex : existsb (λ r0, bool_decide (row_date r0 = row_date r)) rows = true).
  { apply existsb_exists. exists r'. split; [by apply list_elem_of_In |].
    by apply bool_decide_eq_true. }
  by rewrite Hex.
Qed.

Lemma all_stored_skipped eng (base c : catalog) rows :
  Forall (stored eng c) rows → insert_all eng base rows c = c.
Proof.
  induction 1 as [| tl rows Htl _ IH]; [done |].
  cbn [insert_all fold_left]. rewrite (stored_skipped _ base _ _ Htl). exact IH.
Qed.

(** The tuples of a batch split at its last tuple that cannot be inserted. *)
Lemma last_rejected_split eng (base : catalog) (rows : list (string * line)) :
  Forall (insertable eng base) rows
  ∨ ∃ before tl after,
      rows = before ++ tl :: after
      ∧ ¬ insertable eng base tl
      ∧ Forall (insertable eng base) after.
Proof.
  induction rows as [| tl rows [Hall | (before & x & after & -> & Hx & Hafter)]].
  - by left.
  - destruct (decide (is_Some (base !! tl.1) ∧ is_Some (eng tl.2))) as [Hok | Hno].
    + left. by constructor.
    + right. by exists [], tl, rows.
  - right. by exists (tl :: before), x, after.
Qed.

(** After a batch without a raising INSERT every tuple's period is stored. *)
Lemma insertable_then_stored eng (base : catalog) rows :
  Forall (insertable eng base) rows →
  Forall (stored eng (insert_all eng base rows base)) rows.
Proof.
  intros Hall.
  destruct (insert_all_success eng base rows base) as (_ & _ & Hstored).
  { intros t l Hin. exact (proj1 (Forall_forall _ _) Hall (t, l) Hin). }
  apply Forall_forall. intros [t l] Hin. by apply Hstored.
Qed.

(** The catalog a batch leaves is a fixed point of the batch. *)
Lemma insert_all_twice eng (base : catalog) rows :
  insert_all eng (insert_all eng base rows base) rows
    (insert_all eng base rows base)
  = insert_all eng base rows base.
Proof.
  destruct (last_rejected_split eng base rows)
    as [Hall | (before & tl & after & -> & Hno & Hafter)].
  - apply all_stored_skipped. by apply insertable_then_stored.
  - assert (Hfirst : insert_all eng base (before ++ tl :: after) base
                     = insert_all eng base after base).
    { destruct tl as [t l]. apply rollback_discards_earlier_inserts.
      apply (not_insertable_raises eng base _ (t, l)); [| done].
      apply insert_all_same_tables, same_tables_refl. }
    rewrite Hfirst.
    set (final := insert_all eng base after base).
    assert (Hfinal : same_tables base final)
      by apply insert_all_same_tables, same_tables_refl.
    assert (Hno' : ¬ insertable eng final tl).
    { intros [Ht Hl]. apply Hno. split; [by apply Hfinal | done]. }
    destruct tl as [t l]. rewrite rollback_discards_earlier_inserts.
    + apply all_stored_skipped. by apply insertable_then_stored.
    + apply (not_insertable_raises eng final _ (t, l)); [| done].
      apply insert_all_same_tables, same_tables_refl.
Qed.


(** ** Appending a record twice *)

Lemma insertable_same_tables eng (base c : catalog) rows :
  same_tables base c →
  Forall (insertable eng base) rows →
  ∀ t l, (t, l) ∈ rows → is_Some (c !! t) ∧ is_Some (eng l).
Proof.
  intros Hsame Hall t l Hin.
  destruct (proj1 (Forall_forall _ _) Hall (t, l) Hin) as [Ht Hl].
  split; [by apply Hsame | done].
Qed.

(** A tuple that the engine accepts, and after which no INSERT of the batch
    raises, has a stored row for its period after the batch. *)
Lemma insert_all_tail_stored eng (base : catalog) before t l after r :
  is_Some (base !! t) → eng l = Some r →
  Forall (insertable eng base) after →
  has_row (insert_all eng base (before ++ (t, l) :: after) base) t (row_date r).
Proof.
  intros Ht Hl Hafter. rewrite insert_all_app.
  set (c := insert_all eng base before base).
  assert (Hsame : same_tables base c)
    by apply insert_all_same_tables, same_tables_refl.
  destruct (insert_all_success eng base ((t, l) :: after) c) as (_ & _ & Hall).
  { apply (insertable_same_tables eng base c); [done |].
    constructor; [| done]. split; [done | by eexists]. }
  destruct (Hall t l (list_elem_of_here _ _)) as (r' & Hr' & Hrow).
  rewrite Hl in Hr'. by injection Hr' as <-.
Qed.

(** Under the PRIMARY KEY constraint a stored period has exactly one row. *)
Lemma primary_key_one_row (c : catalog) t d :
  primary_key c → has_row c t d → ∃ r, rows_for c t d = [r].
Proof.
  intros Hpk (rows & r & Ht & Hin & Hd). unfold rows_for. rewrite Ht.
  cbn [default from_option id].
  assert (Hex : existsb (λ r', bool_decide (row_date r' = d)) rows = true).
  { apply existsb_exists. exists r. split; [by apply list_elem_of_In |].
    by apply bool_decide_eq_true. }
  destruct (existsb_date_true _ _ Hex (Hpk _ _ Ht)) as (r0 & _ & _ & ->).
  by exists r0.
Qed.

Lemma rows_for_elem (c : catalog) t d r :
  r ∈ rows_for c t d ↔ ∃ rows, c !! t = Some rows ∧ r ∈ rows ∧ row_date r = d.
Proof.
  unfold rows_for. rewrite list_elem_of_filter. split.
  - intros [Hd Hin]. destruct (c !! t) as [rows |]; [| by apply elem_of_nil in Hin].
    by exists rows.
  - intros (rows & -> & Hin & Hd). done.
Qed.

(** Every row of the catalog after a batch was in the committed catalog, in
    the transaction when the batch began, or is the row of a tuple of the
    batch for its table. *)
Lemma insert_step_origin eng (base c : catalog) tl t rows r :
  insert_step eng base c tl !! t = Some rows → r ∈ rows →
  (∃ rows0, c !! t = Some rows0 ∧ r ∈ rows0)
  ∨ (∃ rows0, base !! t = Some rows0 ∧ r ∈ rows0)
  ∨ (tl.1 = t ∧ eng tl.2 = Some r).
Proof.
  destruct tl as [t0 l0]. unfold insert_step, run_statement. cbn [fst snd].
  destruct (c !! t0) as [rows0 |] eqn:Ht0; cbn [default from_option id];
    [| intros; right; left; by eexists].
  destruct (eng l0) as [r0 |] eqn:Hl0; cbn [default from_option id];
    [| intros; right; left; by eexists].
  destruct (existsb _ rows0); cbn [default from_option id];
    [intros; left; by eexists |].
  rewrite lookup_insert. case_decide as Heq.
  - subst t0. intros [= <-] [Hin | ->%list_elem_of_singleton]%elem_of_app.
    + left. by exists rows0.
    + right. right. done.
  - intros Ht Hin. left. by exists rows.
Qed.

Lemma insert_all_origin eng (base : catalog) (tuples : list (string * line)) t r :
  ∀ c rows,
    insert_all eng base tuples c !! t = Some rows → r ∈ rows →
    (∃ rows0, c !! t = Some rows0 ∧ r ∈ rows0)
    ∨ (∃ rows0, base !! t = Some rows0 ∧ r ∈ rows0)
    ∨ (∃ l, (t, l) ∈ tuples ∧ eng l = Some r).
Proof.
  induction tuples as [| tl tuples IH]; intros c rows Ht Hin.
  - left. by exists rows.
  - cbn [insert_all fold_left] in Ht.
    destruct (IH _ _ Ht Hin) as [(rows0 & Ht0 & Hin0) | [Hbase | (l & Hl & Hr)]].
    + destruct (insert_step_origin _ _ _ _ _ _ _ Ht0 Hin0)
        as [Hc | [Hbase | [Htl Hr]]]; [by left | by right; left |].
      right. right. exists tl.2. split; [| done].
      destruct tl as [t0 l0]. cbn in *. subst t0. left.
    + by right; left.
    + right. right. exists l. split; [by right | done].
Qed.

Lemma resolved_elem (w : world) (rows : list (string * line)) t l :
  (t, l) ∈ resolved w rows ↔ ∃ t', (t', l) ∈ rows ∧ identifier w t' = t.
Proof.
  unfold resolved. rewrite list_elem_of_fmap. split.
  - intros ([t' l'] & [= -> ->] & Hin). by exists t'.
  - intros (t' & Hin & <-). by exists (t', l).
Qed.




(** The spec's scenario: a second append of [foo]'s 7-day record leaves the
    one row, also when a value was stored before. *)
Example append_scenario :
  committed
    (append two_streamers [("streamer_foo", [(SStr "7-days", SInt 120, SInt 5)])]
       (append two_streamers
          [("streamer_foo", [(SStr "7-days", SInt 120, SInt 5)])]
          (initial foo_catalog)).2).2 !! "streamer_foo"
  = Some [("7-days", Some 120, Some 5)].
Proof. vm_compute. reflexivity. Qed.

(** ** Collected records and failed requests *)

Lemma dict_set_fresh {K V : Type} `{EqDecision K} (d : dict K V) k v :
  dict_get d k = None → dict_set d k v = d ++ [(k, v)].
Proof.
  induction d as [| [k0 v0] d IH]; cbn; [done |].
  destruct (decide (k0 = k)) as [-> | Hne]; [done |].
  intros Hget. by rewrite IH.
Qed.

Lemma dict_get_app_fresh {K V : Type} `{EqDecision K} (d : dict K V) k k' v :
  dict_get d k = None → k ≠ k' → dict_get (d ++ [(k', v)]) k = None.
Proof.
  induction d as [| [k0 v0] d IH]; cbn.
  - intros _ Hne. by rewrite decide_False.
  - destruct (decide (k0 = k)); [done |]. apply IH.
Qed.

(** The history map of distinct streamers holds them in ranking order. *)
Lemma history_map_distinct (w : world) (ss : list scalar) :
  NoDup ss →
  ∀ h, (∀ s, s ∈ ss → dict_get h s = None) →
       history_map w ss h = h ++ map (λ s, (s, collected w s)) ss.
Proof.
  induction 1 as [| s ss Hnotin _ IH]; intros h Hfresh.
  - cbn. by rewrite app_nil_r.
  - rewrite history_map_cons, (dict_set_fresh h s _ (Hfresh s (list_elem_of_here _ _))).
    rewrite IH.
    + cbn [map]. by rewrite <- app_assoc.
    + intros s' Hs'. apply dict_get_app_fresh.
      * apply Hfresh. by right.
      * intros ->. done.
Qed.

(** On streamers with distinct table names [format] keeps every streamer's
    tuples, in ranking order. *)
Lemma format_items_distinct (w : world) (records : string → list pydict)
    (names : list string) :
  NoDup (table_name w <$> names) →
  ∀ acc, (∀ k, k ∈ names → dict_get acc (table_name w k) = None) →
         format_items w (map (λ k, (SStr k, records k)) names) acc
         = Ok (acc ++ map (λ k, (table_name w k, map record_line (records k)))
                        names).
Proof.
  induction names as [| k names IH]; intros Hnodup acc Hfresh.
  - cbn. by rewrite app_nil_r.
  - rewrite fmap_cons in Hnodup. apply NoDup_cons in Hnodup as [Hnotin Hnodup].
    cbn [map]. rewrite format_items_cons.
    rewrite (dict_set_fresh acc _ _ (Hfresh k (list_elem_of_here _ _))).
    rewrite (IH Hnodup).
    + by rewrite <- app_assoc.
    + intros k' Hk'. apply dict_get_app_fresh.
      * apply Hfresh. by right.
      * intros Heq. apply Hnotin. rewrite <- Heq. by apply list_elem_of_fmap_2.
Qed.

Lemma batch_run_batch (w : world) (names : list string) :
  batch (map (λ k, (table_name w k, map record_line (collected w (SStr k))))
           names)
  = run_batch w names.
Proof.
  unfold run_batch. induction names as [| k names IH]; [done |].
  cbn [map]. rewrite batch_cons, IH. cbn [concat]. f_equal.
  by rewrite map_map.
Qed.

Lemma run_batch_elem (w : world) (names : list string) t l :
  (t, l) ∈ run_batch w names ↔
  ∃ k record, k ∈ names ∧ record ∈ collected w (SStr k)
              ∧ t = table_name w k ∧ l = record_line record.
Proof.
  unfold run_batch. induction names as [| k0 names IH]; cbn [map concat].
  - split; [by intros []%elem_of_nil | by intros (? & ? & []%elem_of_nil & _)].
  - rewrite elem_of_app, IH. split.
    + intros [Hhere | (k & record & Hk & Hrest)].
      * apply list_elem_of_fmap in Hhere as (record & [= -> ->] & Hrecord).
        exists k0, record. split; [left | done].
      * exists k, record. split; [by right | done].
    + intros (k & record & [-> | Hk]%elem_of_cons & Hrecord & -> & ->).
      * left. apply list_elem_of_fmap. by exists record.
      * right. by exists k, record.
Qed.




(** The spec's scenario: the run inserts the one collected record, [foo]'s
    for the last 7 days. *)
Example run_batch_scenario :
  run_batch one_week_answered ["foo"; "bar"]
  = [("streamer_foo", (SStr "7-days", SInt 120, SInt 5))].
Proof. vm_compute. reflexivity. Qed.


(** * Further properties *)

(** ** [append] *)

Lemma insert_events_executes (w : world) base (rows : list (string * line)) :
  ∀ c, filter (λ e, is_execute e = true) (insert_events w base rows c)
       = map insert_of rows.
Proof.
  induction rows as [| [t l] rows IH]; intros c; [done |].
  cbn [insert_events map].
  destruct (run_statement _ _ _) as [c' |].
  - rewrite filter_cons_True by done. by rewrite IH.
  - rewrite filter_cons_True by done.
    rewrite filter_cons_False by done. rewrite filter_cons_False by done.
    by rewrite IH.
Qed.


(** X2: [append] never removes, reorders or changes a row that was stored
    before the call: every table keeps its rows as a prefix, whatever the
    batch and whichever INSERTs raise. *)
Theorem append_keeps_stored_rows (w : world)
    (streamer_lines : dict string (list line)) (st : state)
    (t : string) (rows : table) :
  committed st !! t = Some rows →
  ∃ more, committed (append w streamer_lines st).2 !! t = Some (rows ++ more).
Proof.
  intros Ht. destruct st as [tr ss hd cm se]. rewrite append_eq.
  cbn [fst snd committed] in *.
  by apply (insert_all_extends _ _ _ _ (extends_refl cm)).
Qed.

Lemma append_keeps_stored_rows_witness :
  ∃ more,
    committed (append two_streamers week_then_overflow (initial foo_week_stored)).2
      !! "streamer_foo"
    = Some ([("7-days", Some 100, Some 4)] ++ more).
Proof.
  apply (append_keeps_stored_rows two_streamers week_then_overflow
           (initial foo_week_stored) "streamer_foo").
  vm_compute. reflexivity.
Defined.

(** X3: [append] keeps the PRIMARY KEY constraint: when no table holds two
    rows with one [date] before the call, none does afterwards. *)
Theorem append_keeps_primary_key (w : world)
    (streamer_lines : dict string (list line)) (st : state) :
  primary_key (committed st) →
  primary_key (committed (append w streamer_lines st).2).
Proof.
  intros Hpk. destruct st as [tr ss hd cm se]. rewrite append_eq.
  cbn [fst snd committed] in *. by apply primary_key_insert_all.
Qed.

Lemma append_keeps_primary_key_witness :
  primary_key
    (committed (append two_streamers week_then_overflow (initial foo_week_stored)).2).
Proof.
  apply (append_keeps_primary_key two_streamers week_then_overflow
           (initial foo_week_stored)).
  exact primary_key_foo_week_stored.
Defined.

(** X4: when the engine rejects a tuple, the tables after [append] are those
    of a batch that starts after the tuple: every INSERT that ran before the
    rejected one is undone by the rollback, in the same table and in the
    tables before it. *)
Theorem append_after_rejected_line (w : world)
    (tables_before tables_after : dict string (list line)) (t : string)
    (lines_before lines_after : list line) (l : line) (st : state) :
  engine w l = None →
  committed
    (append w (tables_before ++ (t, lines_before ++ l :: lines_after)
                 :: tables_after) st).2
  = committed (append w ((t, lines_after) :: tables_after) st).2.
Proof.
  intros Hreject. destruct st as [tr ss hd cm se]. rewrite !append_eq.
  cbn [fst snd committed].
  rewrite batch_app, !batch_cons, map_app. cbn [map].
  rewrite !resolved_app, resolved_cons.
  rewrite <- !app_assoc. cbn [app].
  rewrite (app_assoc (resolved w (batch tables_before))).
  apply rollback_discards_earlier_inserts.
  unfold run_statement. rewrite Hreject. by destruct (_ !! identifier w t).
Qed.

Lemma append_after_rejected_line_witness :
  committed
    (append two_streamers
       ([] ++ ("streamer_foo",
               [(SStr "7-days", SInt 120, SInt 5)]
                 ++ (SStr "last-month", SInt 3000000000, SInt 20)
                 :: [(SStr "last-year", SInt 90, SInt 200)]) :: [])
       (initial foo_catalog)).2
  = committed
      (append two_streamers
         [("streamer_foo", [(SStr "last-year", SInt 90, SInt 200)])]
         (initial foo_catalog)).2.
Proof.
  apply (append_after_rejected_line two_streamers [] [] "streamer_foo"
           [(SStr "7-days", SInt 120, SInt 5)]
           [(SStr "last-year", SInt 90, SInt 200)]
           (SStr "last-month", SInt 3000000000, SInt 20) (initial foo_catalog)).
  reflexivity.
Defined.


(** X5: [append] is idempotent on every batch: appending the batch a second
    time leaves every table as the first call left it, also when INSERTs
    raise and are rolled back in both calls. *)
Theorem append_batch_twice (w : world)
    (streamer_lines : dict string (list line)) (st : state) :
  committed (append w streamer_lines (append w streamer_lines st).2).2
  = committed (append w streamer_lines st).2.
Proof.
  destruct st as [tr ss hd cm se]. rewrite append_eq. cbn [fst snd].
  rewrite append_eq. cbn [fst snd committed]. apply insert_all_twice.
Qed.

(** ** [database] *)

Lemma create_tables_unchanged (ts : list string) :
  ∀ (c : catalog) t rows,
    c !! t = Some rows → fold_left create_table ts c !! t = Some rows.
Proof.
  induction ts as [| t0 ts IH]; intros c t rows Ht; [done |].
  cbn. apply IH. unfold create_table.
  destruct (c !! t0) eqn:Ht0; [done |].
  rewrite lookup_insert. case_decide; [congruence | done].
Qed.

Lemma create_tables_new (ts : list string) :
  ∀ (c : catalog) t,
    t ∈ ts → c !! t = None → fold_left create_table ts c !! t = Some [].
Proof.
  induction ts as [| t0 ts IH]; intros c t Hin Hnone;
    [by apply elem_of_nil in Hin |].
  cbn. destruct (decide (t0 = t)) as [-> | Hne].
  - apply create_tables_unchanged. unfold create_table. rewrite Hnone.
    apply lookup_insert_eq.
  - apply elem_of_cons in Hin as [-> | Hin]; [done |].
    apply IH; [done |]. unfold create_table.
    destruct (c !! t0); [done |]. by rewrite lookup_insert_ne.
Qed.

Lemma create_tables_other (ts : list string) :
  ∀ (c : catalog) t, t ∉ ts → fold_left create_table ts c !! t = c !! t.
Proof.
  induction ts as [| t0 ts IH]; intros c t Hnotin; [done |].
  apply not_elem_of_cons in Hnotin as [Hne Hnotin].
  cbn. rewrite (IH _ _ Hnotin). unfold create_table.
  destruct (c !! t0); [done |]. by rewrite lookup_insert_ne.
Qed.

Lemma create_tables_present (ts : list string) :
  ∀ c : catalog, (∀ t, t ∈ ts → is_Some (c !! t)) → fold_left create_table ts c = c.
Proof.
  induction ts as [| t0 ts IH]; intros c Hall; [done |].
  cbn. assert (Hsame : create_table c t0 = c).
  { unfold create_table. by destruct (Hall t0 (list_elem_of_here _ _)) as [rows ->]. }
  rewrite Hsame. apply IH. intros t Ht. apply Hall. by right.
Qed.

(** X6: [database] on string names returns normally with the connection
    closed.  Afterwards the table that the server reads from the table name
    of each key exists; a table that existed keeps its rows, a table that did
    not exist is empty, and the tables that no key's name denotes are
    untouched.  Calling it again changes nothing. *)
Theorem database_ensures_tables (w : world) (names : list string) (st : state) :
  ∃ st',
    database w (SStr <$> names) st = (Ok (), st')
    ∧ session st' = None
    ∧ (∀ k, k ∈ names → is_Some (committed st' !! table_of w k))
    ∧ (∀ t rows, committed st !! t = Some rows → committed st' !! t = Some rows)
    ∧ (∀ k, k ∈ names → committed st !! table_of w k = None →
         committed st' !! table_of w k = Some [])
    ∧ (∀ t, t ∉ table_of w <$> names → committed st' !! t = committed st !! t)
    ∧ committed (database w (SStr <$> names) st').2 = committed st'.
Proof.
  destruct st as [tr ss hd cm se]. rewrite database_strings.
  eexists. split; [reflexivity |]. rewrite database_strings.
  cbn [session committed fst snd].
  split; [done |]. split; [| split; [| split; [| split]]].
  - intros k Hk. apply create_tables_exist. by apply list_elem_of_fmap_2.
  - apply create_tables_unchanged.
  - intros k Hk. apply create_tables_new. by apply list_elem_of_fmap_2.
  - apply create_tables_other.
  - apply create_tables_present. intros t Ht. by apply create_tables_exist.
Qed.

Lemma for_each_app_ok {A : Type} (l1 l2 : list A) (body : A → M unit) :
  ∀ st st', for_each l1 body st = (Ok (), st') →
            for_each (l1 ++ l2) body st = for_each l2 body st'.
Proof.
  induction l1 as [| x l1 IH]; intros st st'.
  - by intros [= ->].
  - cbn [for_each app]. unfold mbind, M_bind.
    destruct (body x st) as [[[] | e] st1]; [| done].
    apply IH.
Qed.

Lemma py_lower_non_string (w : world) v :
  (∀ s, v ≠ SStr s) → py_lower w v = Raise AttributeError.
Proof. intros Hv. destruct v as [| z | s]; [done | done |]. by destruct (Hv s). Qed.

Lemma database_raises_at (w : world) (names : list string) (v : scalar)
    (rest : list scalar) tr ss hd cm se :
  (∀ s, v ≠ SStr s) →
  database w ((SStr <$> names) ++ v :: rest)
    {| trace := tr; streamers := ss; history_data := hd; committed := cm;
       session := se |}
  = (Raise AttributeError,
     {| trace :=
          tr ++ [Log INFO
                   "Checking/creating PostgreSQL tables for each streamer..." [];
                 DbConnect]
             ++ map (λ k, DbExecute (CreateTableIfNotExists (table_name w k)))
                  names;
        streamers := ss; history_data := hd; committed := cm;
        session := Some (fold_left create_table (table_of w <$> names) cm) |}).
Proof.
  intros Hv. unfold database.
  step. step. erewrite bind_raise.
  2: { erewrite for_each_app_ok by apply create_tables_loop.
       cbn [for_each]. erewrite bind_raise; [reflexivity |].
       erewrite bind_raise; [reflexivity |].
       unfold lift. by rewrite (py_lower_non_string w _ Hv). }
  by rewrite <- !app_assoc.
Qed.

(** X7: when a name of the ranking is not a string, [database] raises
    [AttributeError] at that name: the tables of the names before it were
    created in the transaction, but nothing is committed, so the stored
    catalog is unchanged and the connection is left open. *)
Theorem database_non_string_name (w : world) (names : list string)
    (v : scalar) (rest : list scalar) (st : state) :
  (∀ s, v ≠ SStr s) →
  ∃ st',
    database w ((SStr <$> names) ++ v :: rest) st = (Raise AttributeError, st')
    ∧ committed st' = committed st
    ∧ session st'
      = Some (fold_left create_table (table_of w <$> names) (committed st))
    ∧ trace st' = trace st
        ++ [Log INFO "Checking/creating PostgreSQL tables for each streamer..." [];
            DbConnect]
        ++ map (λ k, DbExecute (CreateTableIfNotExists (table_name w k))) names.
Proof.
  intros Hv. destruct st as [tr ss hd cm se].
  rewrite (database_raises_at _ _ _ _ _ _ _ _ _ Hv).
  eexists. split; [reflexivity |]. done.
Qed.

Lemma database_non_string_name_witness :
  ∃ st',
    database two_streamers ((SStr <$> ["foo"]) ++ SInt 5 :: [SStr "bar"])
      (initial ∅) = (Raise AttributeError, st')
    ∧ committed st' = committed (initial ∅)
    ∧ session st'
      = Some (fold_left create_table (table_of two_streamers <$> ["foo"])
                (committed (initial ∅)))
    ∧ trace st' = trace (initial ∅)
        ++ [Log INFO "Checking/creating PostgreSQL tables for each streamer..." [];
            DbConnect]
        ++ map (λ k, DbExecute
                       (CreateTableIfNotExists (table_name two_streamers k)))
             ["foo"].
Proof.
  apply (database_non_string_name two_streamers ["foo"] (SInt 5) [SStr "bar"]
           (initial ∅)).
  intros s. discriminate.
Defined.

(** ** [history] *)

Lemma history_request_exact (w : world) s p tr ss hd cm se recs :
  dict_get hd s = Some recs →
  history_request w s p
    {| trace := tr; streamers := ss; history_data := hd; committed := cm;
       session := se |}
  = (Ok (),
     {| trace := tr ++ request_events w s p; streamers := ss;
        history_data := dict_set hd s (recs ++ fetched w s p);
        committed := cm; session := se |}).
Proof.
  intros Hget. unfold history_request, fetched, request_events. cbn zeta.
  step. step. step.
  destruct (bool_decide (status_code (channel_api w (history_url s p)) = 200)).
  - destruct (default [] (json_data (channel_api w (history_url s p))))
      as [| d data].
    + step. rewrite app_nil_r, (dict_set_id _ _ _ Hget). finish.
    + erewrite bind_ok.
      2: { erewrite bind_ok by (by apply history_append_eq).
           apply logging_info. }
      fields. finish.
  - step. rewrite app_nil_r, (dict_set_id _ _ _ Hget). finish.
Qed.

Lemma history_streamer_exact (w : world) s tr ss hd cm se :
  (h ← gets history_data;
   set_history_data (dict_set h s []);;
   for_each time_periods (history_request w s))
    {| trace := tr; streamers := ss; history_data := hd; committed := cm;
       session := se |}
  = (Ok (),
     {| trace := tr ++ streamer_events w s; streamers := ss;
        history_data := dict_set hd s (collected w s);
        committed := cm; session := se |}).
Proof.
  step. step. unfold time_periods.
  erewrite for_each_cons_ok
    by (apply history_request_exact, dict_get_set_eq).
  rewrite dict_set_set.
  erewrite for_each_cons_ok
    by (apply history_request_exact, dict_get_set_eq).
  rewrite dict_set_set.
  erewrite for_each_cons_ok
    by (apply history_request_exact, dict_get_set_eq).
  rewrite dict_set_set. cbn [for_each].
  unfold collected, streamer_events. by rewrite app_nil_l, <- !app_assoc.
Qed.

Lemma history_loop_exact (w : world) (ss0 : list scalar) :
  ∀ tr ss hd cm se,
    for_each ss0 (λ streamer,
      h ← gets history_data;
      set_history_data (dict_set h streamer []);;
      for_each time_periods (history_request w streamer))
      {| trace := tr; streamers := ss; history_data := hd; committed := cm;
         session := se |}
    = (Ok (),
       {| trace := tr ++ concat (map (streamer_events w) ss0); streamers := ss;
          history_data := history_map w ss0 hd;
          committed := cm; session := se |}).
Proof.
  induction ss0 as [| s ss0 IH]; intros tr ss hd cm se.
  - cbn. by rewrite app_nil_r.
  - erewrite for_each_cons_ok by apply history_streamer_exact.
    rewrite IH. cbn [map concat]. by rewrite <- app_assoc.
Qed.

Lemma history_exact (w : world) tr ss hd cm se :
  history w
    {| trace := tr; streamers := ss; history_data := hd; committed := cm;
       session := se |}
  = (Ok (history_map w ss hd),
     {| trace := tr ++ history_events w ss; streamers := ss;
        history_data := history_map w ss hd;
        committed := cm; session := se |}).
Proof.
  unfold history, history_events. step. step.
  erewrite bind_ok by apply history_loop_exact. fields.
  unfold gets. fields. by rewrite <- app_assoc.
Qed.

Lemma request_events_http (w : world) s p :
  filter (λ e, is_http e = true) (request_events w s p) = [HttpGet (history_url s p)]
  ∧ filter (λ e, is_sleep e = true) (request_events w s p) = [Sleep]
  ∧ Forall (λ e, is_db e = false) (request_events w s p).
Proof.
  unfold request_events. cbn zeta.
  destruct (bool_decide _); [destruct (default [] _) |];
    (split; [done |]; split; [done |]; by repeat constructor).
Qed.

Lemma streamer_events_http (w : world) s :
  filter (λ e, is_http e = true) (streamer_events w s)
  = map (λ p, HttpGet (history_url s p)) time_periods
  ∧ length (filter (λ e, is_sleep e = true) (streamer_events w s)) = 3%nat
  ∧ Forall (λ e, is_db e = false) (streamer_events w s).
Proof.
  unfold streamer_events, time_periods.
  destruct (request_events_http w s "7-days") as (H1 & S1 & D1).
  destruct (request_events_http w s "last-month") as (H2 & S2 & D2).
  destruct (request_events_http w s "last-year") as (H3 & S3 & D3).
  rewrite !filter_app, H1, H2, H3, S1, S2, S3, !Forall_app. done.
Qed.

Lemma history_events_http (w : world) (ss : list scalar) :
  filter (λ e, is_http e = true) (history_events w ss)
  = concat (map (λ s, map (λ p, HttpGet (history_url s p)) time_periods) ss)
  ∧ length (filter (λ e, is_sleep e = true) (history_events w ss))
    = (3 * length ss)%nat
  ∧ Forall (λ e, is_db e = false) (history_events w ss).
Proof.
  unfold history_events. rewrite !filter_cons_False by done.
  assert (Hall : filter (λ e, is_http e = true) (concat (map (streamer_events w) ss))
                 = concat (map (λ s, map (λ p, HttpGet (history_url s p)) time_periods) ss)
                 ∧ length (filter (λ e, is_sleep e = true)
                             (concat (map (streamer_events w) ss)))
                   = (3 * length ss)%nat
                 ∧ Forall (λ e, is_db e = false) (concat (map (streamer_events w) ss))).
  { induction ss as [| s ss (IH1 & IH2 & IH3)]; [done |].
    destruct (streamer_events_http w s) as (H1 & H2 & H3).
    cbn [map concat]. rewrite !filter_app, H1, IH1, length_app, H2, IH2, Forall_app.
    split; [done |]. split; [cbn [length]; lia | done]. }
  destruct Hall as (H1 & H2 & H3).
  split; [done |]. split; [done |]. by constructor.
Qed.


Lemma fetched_tagged (w : world) s p record :
  record ∈ fetched w s p →
  status_code (channel_api w (history_url s p)) = 200
  ∧ dict_get record "date" = Some (SStr p)
  ∧ ∀ k, k ≠ "date" →
         dict_get record k
         = dict_get (default [] (json_data (channel_api w (history_url s p)))) k.
Proof.
  unfold fetched. case_bool_decide as Hstatus; [| by intros []%elem_of_nil].
  destruct (default [] _) as [| d data]; [by intros []%elem_of_nil |].
  intros ->%list_elem_of_singleton. split; [done |].
  split; [apply dict_get_set_eq |]. intros k Hk. by apply dict_get_set_ne.
Qed.

Lemma fetched_length (w : world) s p : (length (fetched w s p) ≤ 1)%nat.
Proof.
  unfold fetched. destruct (bool_decide _); [| cbn; lia].
  destruct (default [] _); cbn; lia.
Qed.

(** X9: after [history] every streamer of the ranking is bound to at most
    three records; each record stems from a request that was answered with
    status 200, its [date] is that request's period (replacing a [date] the
    API object may carry), and its other members are those of the API
    object. *)
Theorem history_records_tagged (w : world) (st : state) (s : scalar) :
  s ∈ streamers st →
  ∃ records,
    dict_get (history_data (history w st).2) s = Some records
    ∧ (length records ≤ 3)%nat
    ∧ Forall (λ record,
        ∃ p, p ∈ time_periods
             ∧ status_code (channel_api w (history_url s p)) = 200
             ∧ dict_get record "date" = Some (SStr p)
             ∧ ∀ k, k ≠ "date" →
                    dict_get record k
                    = dict_get
                        (default [] (json_data (channel_api w (history_url s p))))
                        k) records.
Proof.
  intros Hs. destruct st as [tr ss hd cm se]. rewrite history_exact.
  cbn [fst snd history_data streamers] in *.
  exists (collected w s). split; [by apply history_map_lookup |].
  unfold collected. split.
  - rewrite !length_app.
    pose proof (fetched_length w s "7-days").
    pose proof (fetched_length w s "last-month").
    pose proof (fetched_length w s "last-year"). lia.
  - rewrite !Forall_app. unfold time_periods.
    repeat split; apply Forall_forall; intros record Hin;
      destruct (fetched_tagged _ _ _ _ Hin) as (Hst & Hd & Hk);
      [exists "7-days" | exists "last-month" | exists "last-year"];
      (split; [rewrite !elem_of_cons; auto | done]).
Qed.

Lemma history_records_tagged_witness :
  ∃ records,
    dict_get
      (history_data
         (history two_streamers
            {| trace := []; streamers := [SStr "foo"; SStr "bar"];
               history_data := []; committed := ∅; session := None |}).2)
      (SStr "foo") = Some records
    ∧ (length records ≤ 3)%nat
    ∧ Forall (λ record,
        ∃ p, p ∈ time_periods
             ∧ status_code (channel_api two_streamers (history_url (SStr "foo") p))
               = 200
             ∧ dict_get record "date" = Some (SStr p)
             ∧ ∀ k, k ≠ "date" →
                    dict_get record k
                    = dict_get
                        (default []
                           (json_data
                              (channel_api two_streamers
                                 (history_url (SStr "foo") p))))
                        k) records.
Proof.
  apply (history_records_tagged two_streamers
           {| trace := []; streamers := [SStr "foo"; SStr "bar"];
              history_data := []; committed := ∅; session := None |}
           (SStr "foo")).
  cbn. left.
Defined.

Lemma history_map_fixed (w : world) (ss : list scalar) :
  ∀ h, (∀ s, s ∈ ss → dict_get h s = Some (collected w s)) →
       history_map w ss h = h.
Proof.
  induction ss as [| s ss IH]; intros h Hall; [done |].
  rewrite history_map_cons.
  rewrite (dict_set_id h s _ (Hall s (list_elem_of_here _ _))).
  apply IH. intros s' Hs'. apply Hall. by right.
Qed.

(** X10: [history] replaces the records of a streamer, it does not add to
    them: a second call returns the same history map as the first, with no
    record duplicated. *)
Theorem history_twice (w : world) (st : state) :
  (history w (history w st).2).1 = (history w st).1
  ∧ history_data (history w (history w st).2).2 = history_data (history w st).2.
Proof.
  destruct st as [tr ss hd cm se]. rewrite history_exact. cbn [fst snd].
  rewrite history_exact. cbn [fst snd history_data].
  rewrite history_map_fixed; [done |].
  intros s Hs. by apply history_map_lookup.
Qed.


(** ** [scrape] *)

Lemma comprehension_length {A B : Type} (f : A → result B) (l : list A) :
  ∀ ys, comprehension f l = Ok ys → length ys = length l.
Proof.
  induction l as [| x l IH]; intros ys; cbn [comprehension].
  - by intros [= <-].
  - destruct (f x) as [y |]; cbn; [| done].
    destruct (comprehension f l) as [ys' |]; cbn; [| done].
    intros [= <-]. cbn. by rewrite (IH ys' eq_refl).
Qed.

(** X11: whatever the response is, a list that [scrape] returns has at most
    20 names and is the new value of [self.streamers]. *)
Theorem scrape_at_most_20 (w : world) (st : state) (names : list scalar) :
  (scrape w st).1 = Ok names →
  (length names ≤ 20)%nat ∧ streamers (scrape w st).2 = names.
Proof.
  destruct st as [tr ss hd cm se].
  destruct (decide (status_code (ranking_api w ranking_url) = 200))
    as [Hstatus | Hstatus].
  - destruct (sorted_desc viewers_key
                (default [] (json_data (ranking_api w ranking_url))))
      as [sorted_data | e] eqn:Hsort.
    + destruct (comprehension (λ s, subscript s "channel_name")
                  (take 20 sorted_data)) as [names' | e] eqn:Hnames.
      * rewrite (scrape_ok_eq _ _ _ _ _ _ _ _ Hstatus Hsort Hnames).
        cbn [fst snd streamers]. intros [= <-]. split; [| done].
        rewrite (comprehension_length _ _ _ Hnames), length_take. lia.
      * by rewrite (scrape_names_raise _ _ _ _ _ _ _ _ Hstatus Hsort Hnames).
    + by rewrite (scrape_sort_raises _ _ _ _ _ _ _ Hstatus Hsort).
  - rewrite (scrape_failed_eq _ _ _ _ _ _ Hstatus).
    cbn [fst snd streamers]. intros [= <-]. split; [cbn; lia | done].
Qed.

Lemma scrape_at_most_20_witness :
  (length [SStr "foo"; SStr "bar"] ≤ 20)%nat
  ∧ streamers (scrape two_streamers (initial ∅)).2 = [SStr "foo"; SStr "bar"].
Proof.
  apply (scrape_at_most_20 two_streamers (initial ∅) [SStr "foo"; SStr "bar"]).
  vm_compute. reflexivity.
Defined.

Section NullKeys.
Context {A : Type} (key : A → scalar).

Lemma py_lt_null_r a : py_lt a SNull = Raise TypeError.
Proof. by destruct a. Qed.

Lemma py_lt_raises a b e : py_lt a b = Raise e → e = TypeError.
Proof. destruct a, b; cbn; congruence. Qed.

Lemma insert_desc_raises x : ∀ l e, insert_desc key x l = Raise e → e = TypeError.
Proof.
  induction l as [| y l IH]; intros e; cbn [insert_desc]; [done |].
  destruct (py_lt (key x) (key y)) as [[] |] eqn:Hlt; cbn.
  - destruct (insert_desc key x l) as [l' |] eqn:Hins; cbn; [done |].
    intros [= <-]. by apply IH.
  - done.
  - intros [= <-]. by eapply py_lt_raises.
Qed.

Lemma sorted_desc_raises : ∀ l e, sorted_desc key l = Raise e → e = TypeError.
Proof.
  induction l as [| x l IH]; intros e; cbn [sorted_desc]; [done |].
  destruct (sorted_desc key l) as [s |] eqn:Hs; cbn.
  - apply insert_desc_raises.
  - intros [= <-]. by apply IH.
Qed.

(** A key that is [None] cannot be compared: a list of at least two elements
    with such a key does not sort. *)
Lemma sorted_desc_null :
  ∀ l, (2 ≤ length l)%nat → (∃ x, x ∈ l ∧ key x = SNull) →
       sorted_desc key l = Raise TypeError.
Proof.
  induction l as [| x l IH]; intros Hlen Hnull; [cbn in Hlen; lia |].
  cbn [sorted_desc].
  destruct (sorted_desc key l) as [s |] eqn:Hs; cbn.
  - pose proof (sorted_desc_perm _ _ _ Hs) as Hperm.
    destruct s as [| y s].
    { apply Permutation_nil_l in Hperm. subst l. cbn in Hlen. lia. }
    destruct (decide (2 ≤ length l)%nat) as [Hlong | Hshort].
    + destruct (decide (key x = SNull)) as [Hx | Hx].
      * cbn [insert_desc]. by rewrite Hx.
      * assert (Hrest : ∃ z, z ∈ l ∧ key z = SNull).
        { destruct Hnull as (z & [-> | Hz]%elem_of_cons & Hkey); [congruence |].
          by exists z. }
        pose proof (IH Hlong Hrest) as Hraise. congruence.
    + assert (Hone : length (y :: s) = 1%nat).
      { rewrite Hperm. cbn in Hlen. lia. }
      destruct s; [| cbn in Hone; lia].
      apply Permutation_singleton_l in Hperm. subst l.
      cbn [insert_desc].
      destruct Hnull as (z & [-> | ->%list_elem_of_singleton]%elem_of_cons & Hkey).
      * by rewrite Hkey.
      * by rewrite Hkey, py_lt_null_r.
  - f_equal. by eapply sorted_desc_raises.
Qed.
End NullKeys.

(** X12: a status-200 ranking response with at least two entries, one of
    which carries [average_viewers: null], makes [scrape] raise [TypeError]
    in [sorted]; [self.streamers] keeps its value. *)
Theorem scrape_null_metric (w : world) (st : state) (data : list pydict)
    (s : pydict) :
  status_code (ranking_api w ranking_url) = 200 →
  default [] (json_data (ranking_api w ranking_url)) = data →
  (2 ≤ length data)%nat →
  s ∈ data →
  dict_get s "average_viewers" = Some SNull →
  (scrape w st).1 = Raise TypeError
  ∧ streamers (scrape w st).2 = streamers st.
Proof.
  intros Hstatus Hdata Hlen Hin Hnull. subst data.
  destruct st as [tr ss hd cm se].
  rewrite (scrape_sort_raises _ _ _ _ _ _ TypeError Hstatus); [done |].
  apply sorted_desc_null; [done |].
  exists s. split; [done |]. unfold viewers_key. by rewrite Hnull.
Qed.

Lemma scrape_null_metric_witness :
  (scrape null_metric (initial ∅)).1 = Raise TypeError
  ∧ streamers (scrape null_metric (initial ∅)).2 = streamers (initial ∅).
Proof.
  apply (scrape_null_metric null_metric (initial ∅)
           [[("channel_name", SStr "foo"); ("average_viewers", SInt 100)];
            [("channel_name", SStr "bar"); ("average_viewers", SNull)]]
           [("channel_name", SStr "bar"); ("average_viewers", SNull)]).
  - reflexivity.
  - reflexivity.
  - cbn. lia.
  - right. left.
  - reflexivity.
Defined.

(** ** Table names *)

Lemma lower_char_eq_variant c1 c2 :
  lower_char c1 = lower_char c2 → case_variant c1 c2.
Proof.
  assert (Hcases : ∀ c, (lower_char c = c ∧ ¬ is_upper c)
                        ∨ (lower_char c = ascii_of_nat (nat_of_ascii c + 32)
                           ∧ is_upper c)).
  { intros c. unfold lower_char, is_upper.
    destruct (Nat.leb_spec 65 (nat_of_ascii c)); [| left; split; [done | lia]].
    destruct (Nat.leb_spec (nat_of_ascii c) 90); [| left; split; [done | lia]].
    right. cbn. split; [done | lia]. }
  assert (Hnat : ∀ c, is_upper c →
                      nat_of_ascii (ascii_of_nat (nat_of_ascii c + 32))
                      = (nat_of_ascii c + 32)%nat).
  { intros c [Hlo Hhi]. apply nat_ascii_embedding. lia. }
  intros Heq. unfold case_variant.
  destruct (Hcases c1) as [[H1 U1] | [H1 U1]],
           (Hcases c2) as [[H2 U2] | [H2 U2]].
  - left. congruence.
  - right. right. split; [done |]. rewrite <- (Hnat c2 U2). congruence.
  - right. left. split; [done |]. rewrite <- (Hnat c1 U1). congruence.
  - left. rewrite H1, H2 in Heq.
    apply (f_equal nat_of_ascii) in Heq. rewrite (Hnat c1 U1), (Hnat c2 U2) in Heq.
    rewrite <- (ascii_nat_embedding c1), <- (ascii_nat_embedding c2).
    f_equal. lia.
Qed.

Lemma lower_eq_same_up_to_case k1 :
  ∀ k2, lower_ascii k1 = lower_ascii k2 → same_up_to_case k1 k2.
Proof.
  induction k1 as [| c1 k1 IH]; intros [| c2 k2]; cbn; try done.
  - intros _. constructor.
  - intros [= Hc Hk]. constructor; [by apply lower_char_eq_variant | by apply IH].
Qed.

(** X13: the table names that the program derives for keys of ASCII
    characters collide only for keys that differ in letter case: when
    [str.lower] gives two such keys one table name, the keys are equal up to
    the case of their letters. *)
Theorem table_name_collision_only_by_case (w : world) (k1 k2 : string) :
  is_ascii k1 = true → is_ascii k2 = true →
  "streamer_" +:+ lower w k1 = "streamer_" +:+ lower w k2 →
  same_up_to_case k1 k2.
Proof.
  intros H1 H2. unfold lower. rewrite H1, H2.
  intros Heq. apply lower_eq_same_up_to_case.
  cbn in Heq. by injection Heq.
Qed.

Lemma table_name_collision_only_by_case_witness : same_up_to_case "Foo" "fOO".
Proof.
  apply (table_name_collision_only_by_case two_streamers "Foo" "fOO");
    reflexivity.
Defined.


(** ** [main] *)

(** The value [scrape] returns depends on the response alone, not on the
    state it is called in. *)
Lemma scrape_result_state (w : world) (st1 st2 : state) :
  (scrape w st1).1 = (scrape w st2).1.
Proof.
  destruct st1 as [tr1 ss1 hd1 cm1 se1], st2 as [tr2 ss2 hd2 cm2 se2].
  destruct (decide (status_code (ranking_api w ranking_url) = 200))
    as [Hstatus | Hstatus].
  - destruct (sorted_desc viewers_key
                (default [] (json_data (ranking_api w ranking_url))))
      as [sorted_data | e] eqn:Hsort.
    + destruct (comprehension (λ s, subscript s "channel_name")
                  (take 20 sorted_data)) as [names | e] eqn:Hnames.
      * by rewrite !(scrape_ok_eq _ _ _ _ _ _ _ _ Hstatus Hsort Hnames).
      * by rewrite !(scrape_names_raise _ _ _ _ _ _ _ _ Hstatus Hsort Hnames).
    + by rewrite !(scrape_sort_raises _ _ _ _ _ _ _ Hstatus Hsort).
  - by rewrite !(scrape_failed_eq _ _ _ _ _ _ Hstatus).
Qed.

Lemma not_db_not_insert (evs : list event) :
  Forall (λ e, is_db e = false) evs →
  Forall (λ e, e ≠ DbCommit ∧ is_insert e = false) evs.
Proof.
  intros Hall. eapply Forall_impl; [exact Hall |]. intros e He.
  by destruct e.
Qed.

(** X14: [main] has no handler around [scrape]: when the ranking step
    raises, the run ends with that exception after the one ranking request;
    no history request is sent, no database call is made and the stored
    catalog is untouched. *)
Theorem main_scrape_raises (w : world) (db : catalog) (e : exn) :
  falsy (getenv w "CLIENT_ID") = false →
  falsy (getenv w "TOKEN") = false →
  (scrape w (initial db)).1 = Raise e →
  ∃ st',
    main w (initial db) = (Raise e, st')
    ∧ filter (λ ev, is_http ev = true) (trace st') = [HttpGet ranking_url]
    ∧ Forall (λ ev, is_db ev = false) (trace st')
    ∧ history_data st' = []
    ∧ committed st' = db
    ∧ session st' = None.
Proof.
  intros Hid Htoken Hraise.
  rewrite (main_with_credentials _ _ Hid Htoken). unfold initial in *.
  step.
  destruct (scrape w _) as [res st1] eqn:Hscrape.
  cbn [fst] in Hraise. subst res.
  destruct (scrape_frame _ _ _ _ _ _ _ _ Hscrape)
    as (Hhd & Hcm & Hse & _ & evs & Htr & Hnodb & Hhttp).
  erewrite bind_raise by exact Hscrape.
  exists st1. split; [done |]. rewrite Htr. cbn [app]. done.
Qed.

Lemma main_scrape_raises_witness :
  ∃ st',
    main null_metric (initial ∅) = (Raise TypeError, st')
    ∧ filter (λ ev, is_http ev = true) (trace st') = [HttpGet ranking_url]
    ∧ Forall (λ ev, is_db ev = false) (trace st')
    ∧ history_data st' = []
    ∧ committed st' = ∅
    ∧ session st' = None.
Proof.
  apply (main_scrape_raises null_metric ∅ TypeError);
    vm_compute; reflexivity.
Defined.

(** X15: a ranking in which a channel name is not a string (a number or
    null) passes [scrape] and [history], which sends the three requests of
    every streamer, and then stops the run in [database] with
    [AttributeError]: nothing is committed and no INSERT is executed, so
    the stored catalog is the one before the run. *)
Theorem main_non_string_name (w : world) (db : catalog) (names : list string)
    (v : scalar) (rest : list scalar) :
  falsy (getenv w "CLIENT_ID") = false →
  falsy (getenv w "TOKEN") = false →
  (scrape w (initial db)).1 = Ok ((SStr <$> names) ++ v :: rest) →
  (∀ s, v ≠ SStr s) →
  ∃ st',
    main w (initial db) = (Raise AttributeError, st')
    ∧ filter (λ e, is_http e = true) (trace st')
      = HttpGet ranking_url
        :: concat (map (λ s, map (λ p, HttpGet (history_url s p)) time_periods)
                     ((SStr <$> names) ++ v :: rest))
    ∧ Forall (λ e, e ≠ DbCommit ∧ is_insert e = false) (trace st')
    ∧ committed st' = db.
Proof.
  intros Hid Htoken Hnames Hv.
  rewrite (main_with_credentials _ _ Hid Htoken). unfold initial in *.
  step.
  destruct (scrape w _) as [res st1] eqn:Hscrape.
  cbn [fst snd] in *. subst res.
  destruct (scrape_frame _ _ _ _ _ _ _ _ Hscrape)
    as (Hhd & Hcm & Hse & Hss & evs1 & Htr & Hnodb1 & Hhttp1).
  specialize (Hss _ eq_refl).
  destruct st1 as [tr1 ss1 hd1 cm1 se1]. cbn in Hhd, Hcm, Hse, Hss, Htr.
  subst. erewrite bind_ok by exact Hscrape.
  step.
  erewrite bind_ok by apply history_exact.
  erewrite bind_raise by (by apply database_raises_at).
  destruct (history_events_http w ((SStr <$> names) ++ v :: rest))
    as (Hhttp2 & _ & Hnodb2).
  eexists. split; [reflexivity |]. cbn [trace committed].
  split; [| split; [| done]].
  - rewrite !filter_app, Hhttp1, Hhttp2.
    rewrite (filter_cons_False _ (Print _ _)) by done.
    rewrite (filter_cons_False _ (Log _ _ _)) by done.
    rewrite (filter_cons_False _ DbConnect) by done.
    rewrite !filter_nil.
    assert (Hcreate : filter (λ e, is_http e = true)
                        (map (λ k, DbExecute
                                     (CreateTableIfNotExists (table_name w k)))
                           names) = []).
    { clear. induction names as [| k names IH]; [done |].
      cbn [map]. by rewrite filter_cons_False. }
    rewrite Hcreate. cbn [app]. by rewrite !app_nil_r.
  - assert (Hcreate : Forall (λ e, e ≠ DbCommit ∧ is_insert e = false)
                        (map (λ k, DbExecute
                                     (CreateTableIfNotExists (table_name w k)))
                           names)).
    { apply Forall_forall. by intros e (k & -> & _)%list_elem_of_fmap. }
    rewrite !Forall_app.
    repeat split;
      first [exact Hcreate | by apply not_db_not_insert | by repeat constructor].
Qed.

Lemma main_non_string_name_witness :
  ∃ st',
    main numeric_name (initial ∅) = (Raise AttributeError, st')
    ∧ filter (λ e, is_http e = true) (trace st')
      = HttpGet ranking_url
        :: concat (map (λ s, map (λ p, HttpGet (history_url s p)) time_periods)
                     ((SStr <$> ["foo"]) ++ SInt 5 :: []))
    ∧ Forall (λ e, e ≠ DbCommit ∧ is_insert e = false) (trace st')
    ∧ committed st' = ∅.
Proof.
  apply (main_non_string_name numeric_name ∅ ["foo"] (SInt 5) []).
  - vm_compute. reflexivity.
  - vm_compute. reflexivity.
  - vm_compute. reflexivity.
  - intros s. discriminate.
Defined.

(** X16: a run is idempotent on the stored data: when the ranking consists
    of string names, a second run against the same answers of the API, started
    on the catalog the first run left, ends normally and leaves every table
    as it was, whichever INSERTs the engine rejects. *)
Theorem main_twice (w : world) (db : catalog) (names : list string) :
  falsy (getenv w "CLIENT_ID") = false →
  falsy (getenv w "TOKEN") = false →
  (scrape w (initial db)).1 = Ok (SStr <$> names) →
  ∃ st1 st2,
    main w (initial db) = (Ok (), st1)
    ∧ main w (initial (committed st1)) = (Ok (), st2)
    ∧ committed st2 = committed st1.
Proof.
  intros Hid Htoken Hnames.
  destruct (main_run w db names Hid Htoken Hnames)
    as (sl & _ & _ & st1 & Hsl & Hmain1 & _ & Hcm1 & _).
  assert (Hnames2 : (scrape w (initial (committed st1))).1 = Ok (SStr <$> names))
    by (by rewrite (scrape_result_state w _ (initial db))).
  destruct (main_run w (committed st1) names Hid Htoken Hnames2)
    as (sl2 & _ & _ & st2 & Hsl2 & Hmain2 & _ & Hcm2 & _).
  assert (sl2 = sl) as -> by congruence.
  exists st1, st2. split; [done |]. split; [done |].
  set (cm := fold_left create_table (table_of w <$> names) db) in *.
  assert (Hpresent : fold_left create_table (table_of w <$> names) (committed st1)
                     = committed st1).
  { apply create_tables_present. intros t Ht. rewrite Hcm1.
    apply (insert_all_same_tables (engine w) cm (resolved w (batch sl)) cm
             (same_tables_refl cm)).
    by apply create_tables_exist. }
  rewrite Hpresent in Hcm2. rewrite Hcm2, Hcm1. apply insert_all_twice.
Qed.

Lemma main_twice_witness :
  ∃ st1 st2,
    main two_streamers (initial ∅) = (Ok (), st1)
    ∧ main two_streamers (initial (committed st1)) = (Ok (), st2)
    ∧ committed st2 = committed st1.
Proof.
  apply (main_twice two_streamers ∅ ["foo"; "bar"]);
    vm_compute; reflexivity.
Defined.
